(** * Anonymous chat: expiry, optimistic send, realtime events, theme

    A shallow embedding of [src/app/page.tsx] (the [AnonymousChat] React
    component) and of the SQL scripts that define the [messages] table and
    the [delete_old_messages] routine, followed by the properties the
    specification states about them.

    Conventions of the embedding:
    - a JavaScript string is the list of its UTF-16 code units;
    - a timestamp is the time value of the JavaScript [Date] built from it,
      that is an integer number of milliseconds since the epoch; a date
      without a time value (an Invalid Date, as a row dated ['infinity']
      gives) is treated apart, in [RawMessage];
    - the clock is a parameter of every operation that reads it, the
      browser's for the component and the store's for the SQL routine;
    - the table is a finite map from primary key to row, and the query
      builder calls and SQL statements are given their PostgreSQL meaning;
    - a React state variable is a field of [State]; [setX v] and the updater
      form [setX (fun current => ...)] are functions [State -> State];
    - an [async] handler is split at its [await]: the part before it returns
      the request it issues and what its continuation captured, the part
      after it takes the response. *)

From Stdlib Require Import ZArith QArith Qround Lia Floats Uint63.
From stdpp Require Import base decidable option list list_numbers sorting
  strings pretty gmap fin_maps.

Local Open Scope Z_scope.

(** ** JavaScript values *)

Module JS.

(** A string as the sequence of its UTF-16 code units. *)
Abbreviation jsstring := (list N).

(** The code units of an ASCII literal. *)
Definition js (s : string) : jsstring :=
  (fun a : Ascii.ascii => Ascii.N_of_ascii a) <$> String.list_ascii_of_string s.

(** WhiteSpace and LineTerminator code points of ECMAScript, the characters
    [String.prototype.trim] strips. *)
Definition is_whitespace (c : N) : bool :=
  ((9 <=? c) && (c <=? 13) || (c =? 32) || (c =? 160) || (c =? 5760)
   || (8192 <=? c) && (c <=? 8202) || (c =? 8232) || (c =? 8233)
   || (c =? 8239) || (c =? 8287) || (c =? 12288) || (c =? 65279))%N.

Fixpoint trimStart (s : jsstring) : jsstring :=
  match s with
  | c :: s' => if is_whitespace c then trimStart s' else s
  | [] => []
  end.

Definition trimEnd (s : jsstring) : jsstring :=
  reverse (trimStart (reverse s)).

(** [s.trim()] *)
Definition trim (s : jsstring) : jsstring := trimEnd (trimStart s).

(** Truthiness of a string: only the empty string is falsy. *)
Definition truthy (s : jsstring) : bool :=
  match s with [] => false | _ :: _ => true end.

(** [`${n}`] for an integer-valued number. *)
Definition number_to_string (n : Z) : jsstring := js (pretty n).

(** [a % b] on integer-valued numbers: the sign follows the dividend. *)
Definition remainder (a b : Z) : Z := Z.rem a b.

(** [arr.indexOf(x)]: the first index holding [x], or [-1]. *)
Definition indexOf `{EqDecision A} (arr : list A) (x : A) : Z :=
  match list_find (fun y => y = x) arr with
  | Some (i, _) => Z.of_nat i
  | None => -1
  end.

(** [arr.find(p)]: the first element satisfying [p], if any. *)
Definition find {A} (P : A -> Prop) `{forall x, Decision (P x)}
    (arr : list A) : option A :=
  snd <$> list_find P arr.

(** [arr.some(p)] *)
Definition some {A} (P : A -> Prop) `{forall x, Decision (P x)}
    (arr : list A) : bool :=
  bool_decide (Exists P arr).

End JS.
Import JS.

(** ** Data model *)

(** [type Message] of [page.tsx]. [created_at] stands for
    [new Date(msg.created_at).getTime()]. *)
Record Message := mkMessage {
  id : jsstring;
  content : jsstring;
  created_at : Z;
  reply_to : option jsstring
}.

Global Instance Message_eq_dec : EqDecision Message.
Proof. solve_decision. Defined.

(** The state variables declared by the [useState] calls of the component. *)
Record State := mkState {
  messages : list Message;
  newMessage : jsstring;
  isLoading : bool;
  theme : jsstring;
  replyingTo : option Message;
  showTooltip : bool
}.

(** [useState] initial values. *)
Definition initial_state : State :=
  {| messages := []; newMessage := []; isLoading := false;
     theme := js "dark"; replyingTo := None; showTooltip := false |}.

Definition setMessages (f : list Message -> list Message) (s : State) : State :=
  {| messages := f (messages s); newMessage := newMessage s;
     isLoading := isLoading s; theme := theme s;
     replyingTo := replyingTo s; showTooltip := showTooltip s |}.

Definition setNewMessage (v : jsstring) (s : State) : State :=
  {| messages := messages s; newMessage := v;
     isLoading := isLoading s; theme := theme s;
     replyingTo := replyingTo s; showTooltip := showTooltip s |}.

Definition setIsLoading (v : bool) (s : State) : State :=
  {| messages := messages s; newMessage := newMessage s;
     isLoading := v; theme := theme s;
     replyingTo := replyingTo s; showTooltip := showTooltip s |}.

Definition setTheme (v : jsstring) (s : State) : State :=
  {| messages := messages s; newMessage := newMessage s;
     isLoading := isLoading s; theme := v;
     replyingTo := replyingTo s; showTooltip := showTooltip s |}.

Definition setReplyingTo (v : option Message) (s : State) : State :=
  {| messages := messages s; newMessage := newMessage s;
     isLoading := isLoading s; theme := theme s;
     replyingTo := v; showTooltip := showTooltip s |}.

(** Statements of a handler run in sequence: [s |> f |> g] is [f] then [g]. *)
Notation "s |> f" := (f s) (at level 45, left associativity, only parsing).

(** ** Client-side expiry: [removeExpiredMessages] *)

Global Instance Qlt_decision (x y : Q) : Decision (x < y)%Q.
Proof.
  destruct (Qlt_le_dec x y) as [H | H]; [left; exact H | right].
  apply Qle_not_lt, H.
Defined.

(** [(now.getTime() - messageTime.getTime()) / 1000 / 60]. The quotient is
    taken exactly; IEEE division is correctly rounded, hence monotone, and
    120000 / 1000 / 60 is exactly 2, so the comparison with 2 below is the
    one the doubles give. *)
Definition diffMinutes (now messageTime : Z) : Q :=
  (inject_Z (now - messageTime) / inject_Z 1000 / inject_Z 60)%Q.

(** The same expression in binary64 arithmetic, for integer time values below
    2^63 in magnitude; used to check the exact model at the boundary. *)
Definition number_of_Z (z : Z) : float :=
  match z with
  | Z0 => 0%float
  | Zpos _ => PrimFloat.of_uint63 (Uint63.of_Z z)
  | Zneg _ => (- PrimFloat.of_uint63 (Uint63.of_Z (- z)))%float
  end.

Definition diffMinutes_binary64 (now messageTime : Z) : float :=
  (number_of_Z (now - messageTime) / 1000 / 60)%float.

(** The updater passed to [setMessages] by [removeExpiredMessages]. *)
Definition keep_unexpired (now : Z) (current : list Message) : list Message :=
  filter (fun msg => (diffMinutes now (created_at msg) < inject_Z 2)%Q) current.

Definition removeExpiredMessages (now : Z) (s : State) : State :=
  s |> setMessages (keep_unexpired now).

(** Two minutes, in milliseconds. *)
Definition two_minutes : Z := 2 * 60 * 1000.

(** ** Theme: [toggleTheme] and the mount effect *)

(** What the component touches outside React: [localStorage] and the
    [data-theme] attribute of [document.documentElement]. *)
Record Browser := mkBrowser {
  localStorage : gmap jsstring jsstring;
  data_theme : option jsstring
}.

Definition themes : list jsstring :=
  [js "dark"; js "light"; js "golden"; js "sonali"].

(** [themes[(currentIndex + 1) % themes.length]]; an index outside the array
    would read [undefined], rendered here as the empty string. *)
Definition nextTheme (current : jsstring) : jsstring :=
  let currentIndex := indexOf themes current in
  default [] (themes !! Z.to_nat (remainder (currentIndex + 1)
                                            (Z.of_nat (length themes)))).

Definition toggleTheme (p : State * Browser) : State * Browser :=
  let '(s, b) := p in
  let next := nextTheme (theme s) in
  (s |> setTheme next,
   {| localStorage := <[js "theme" := next]> (localStorage b);
      data_theme := Some next |}).

(** The theme part of the mount effect ([useEffect], lines 49-55). *)
Definition mount_theme (p : State * Browser) : State * Browser :=
  let '(s, b) := p in
  match localStorage b !! js "theme" with
  | Some savedTheme =>
      if truthy savedTheme
      then (s |> setTheme savedTheme,
            {| localStorage := localStorage b; data_theme := Some savedTheme |})
      else (s, {| localStorage := localStorage b; data_theme := Some (js "dark") |})
  | None => (s, {| localStorage := localStorage b; data_theme := Some (js "dark") |})
  end.

(** A page load: fresh component state, a fresh document, the storage kept. *)
Definition load (storage : gmap jsstring jsstring) : State * Browser :=
  mount_theme (initial_state, {| localStorage := storage; data_theme := None |}).

Definition reload (p : State * Browser) : State * Browser :=
  load (localStorage (snd p)).

(** ** Sending: [handleSendMessage] *)

(** The object passed to [.insert(...)]. *)
Record InsertRequest := mkInsertRequest {
  ins_content : jsstring;
  ins_reply_to : option jsstring
}.

(** The [{ data, error }] an insert resolves to. *)
Record InsertResponse := mkInsertResponse {
  ins_data : option Message;
  ins_error : option jsstring
}.

(** The constants the continuation after [await] closes over. *)
Record SendPending := mkSendPending {
  optimisticMessage : Message;
  messageContent : jsstring;
  currentReplyTo : option Message
}.

(** [replyingTo?.id || null] *)
Definition id_or_null (r : option Message) : option jsstring :=
  match r with
  | Some m => if truthy (id m) then Some (id m) else None
  | None => None
  end.

(** [handleSendMessage] up to its [await] ([e.preventDefault()] touches the
    event only). [clock_id] is the value of [Date.now()] and [clock_created]
    the time of [new Date()]. The second component is [None] when the
    handler returned at its guard, and otherwise the insert it issues with
    what the rest of the handler needs. *)
Definition handleSendMessage (clock_id clock_created : Z) (s : State)
    : State * option (InsertRequest * SendPending) :=
  if negb (truthy (trim (newMessage s))) || isLoading s then (s, None)
  else
    let messageContent := trim (newMessage s) in
    let optimisticMessage :=
      {| id := js "temp-" ++ number_to_string clock_id;
         content := messageContent;
         created_at := clock_created;
         reply_to := id_or_null (replyingTo s) |} in
    let currentReplyTo := replyingTo s in
    (s |> setIsLoading true
       |> setNewMessage []
       |> setReplyingTo None
       |> setMessages (fun current => optimisticMessage :: current),
     Some ({| ins_content := messageContent;
              ins_reply_to := id_or_null currentReplyTo |},
           {| optimisticMessage := optimisticMessage;
              messageContent := messageContent;
              currentReplyTo := currentReplyTo |})).

(** [handleSendMessage] from its [await] on. *)
Definition handleSendMessage_settled (k : SendPending) (r : InsertResponse)
    (s : State) : State :=
  (match ins_error r, ins_data r with
   | Some _, _ =>
       s |> setMessages (filter (fun msg => id msg <> id (optimisticMessage k)))
         |> setNewMessage (messageContent k)
         |> setReplyingTo (currentReplyTo k)
   | None, Some data =>
       s |> setMessages (fmap (fun msg =>
              if decide (id msg = id (optimisticMessage k)) then data else msg))
   | None, None => s
   end) |> setIsLoading false.

(** ** Realtime events *)

(** The updater of the INSERT handler. *)
Definition insert_update (payload_new : Message) (current : list Message)
    : list Message :=
  if some (fun msg => id msg = id payload_new) current then current
  else payload_new :: current.

Definition on_INSERT (payload_new : Message) (s : State) : State :=
  s |> setMessages (insert_update payload_new).

(** The updater of the DELETE handler. *)
Definition delete_update (old_id : jsstring) (current : list Message)
    : list Message :=
  filter (fun msg => id msg <> old_id) current.

Definition on_DELETE (old_id : jsstring) (s : State) : State :=
  s |> setMessages (delete_update old_id).

(** A DELETE notification reaches every subscribed client. *)
Definition broadcast_DELETE (old_id : jsstring) (clients : list State)
    : list State :=
  on_DELETE old_id <$> clients.

(** ** The store: table [public.messages] and its routines *)

Module Store.

(** A row of [public.messages], keyed by its primary key [id] in the table
    below. [content] is [NOT NULL]; [created_at] and [reply_to] are
    nullable columns. *)
Record Row := mkRow {
  row_content : jsstring;
  row_created_at : option Z;
  row_reply_to : option jsstring
}.

Global Instance Row_eq_dec : EqDecision Row.
Proof. solve_decision. Defined.

(** The table: at most one row per primary key. *)
Abbreviation Table := (gmap jsstring Row).

(** The action of [REFERENCES public.messages(id) ON DELETE SET NULL] on a
    row that survives a deletion of the keys [gone]. *)
Definition set_null (gone : gset jsstring) (r : Row) : Row :=
  match row_reply_to r with
  | Some target =>
      if decide (target ∈ gone)
      then {| row_content := row_content r;
              row_created_at := row_created_at r;
              row_reply_to := None |}
      else r
  | None => r
  end.

(** The keys a [DELETE ... WHERE cond] removes; one DELETE notification is
    sent for each. *)
Definition deleted_keys (cond : jsstring * Row -> Prop)
    `{forall x, Decision (cond x)} (tbl : Table) : gset jsstring :=
  dom (filter cond tbl).

(** [DELETE FROM public.messages WHERE cond]: the rows satisfying [cond]
    go, and the foreign key nulls the references to them. *)
Definition delete_where (cond : jsstring * Row -> Prop)
    `{forall x, Decision (cond x)} (tbl : Table) : Table :=
  set_null (deleted_keys cond tbl) <$> filter (fun x => ~ cond x) tbl.

(** [created_at < NOW() - INTERVAL '2 minutes']; a comparison with NULL is
    not true. *)
Definition older_than_two_minutes (now : Z) (x : jsstring * Row) : Prop :=
  match row_created_at (snd x) with
  | Some t => t < now - two_minutes
  | None => False
  end.

Global Instance older_than_two_minutes_dec now x :
  Decision (older_than_two_minutes now x).
Proof. unfold older_than_two_minutes. destruct (row_created_at x.2); apply _. Defined.

(** [delete_old_messages()], run when the store's clock reads [now]. *)
Definition delete_old_messages (now : Z) (tbl : Table) : Table :=
  delete_where (older_than_two_minutes now) tbl.

(** A row as the client receives it. A NULL [created_at] arrives as JSON
    [null], and [new Date(null).getTime()] is 0. *)
Definition to_message (x : jsstring * Row) : Message :=
  {| id := fst x;
     content := row_content (snd x);
     created_at := default 0 (row_created_at (snd x));
     reply_to := row_reply_to (snd x) |}.

(** The query [fetchMessages] builds:
    [.select("*").gte("created_at", since).order("created_at",
    { ascending: false }).limit(n)]. *)
Record SelectQuery := mkSelectQuery {
  gte_created_at : Z;
  limit : nat
}.

(** [created_at >= since]; not true of NULL. *)
Definition created_since (since : Z) (x : jsstring * Row) : Prop :=
  match row_created_at (snd x) with
  | Some t => since <= t
  | None => False
  end.

Global Instance created_since_dec since x : Decision (created_since since x).
Proof. unfold created_since. destruct (row_created_at x.2); apply _. Defined.

(** [ORDER BY created_at DESC]: [a] may precede [b]. *)
Definition newer_first (a b : Message) : Prop := created_at b <= created_at a.

Global Instance newer_first_dec : RelDecision newer_first.
Proof. intros a b. unfold newer_first. apply _. Defined.

Definition select_messages (q : SelectQuery) (tbl : Table) : list Message :=
  take (limit q)
    (merge_sort newer_first
       (to_message <$> filter (created_since (gte_created_at q))
                              (map_to_list tbl))).

(** The foreign key of [reply_to]: NULL, or the key of a row. *)
Definition references_ok (tbl : Table) (target : option jsstring) : bool :=
  match target with
  | Some r => bool_decide (is_Some (tbl !! r))
  | None => true
  end.

(** [INSERT INTO public.messages (content, reply_to) VALUES (...)] followed
    by [.select().single()]: [uuid] is the value [gen_random_uuid()] draws
    and [now] the store's clock, both column defaults. The primary key and
    the foreign key are checked; a violation is reported as an error
    carrying its SQLSTATE (23505 unique, 23503 foreign key). *)
Definition insert_message (uuid : jsstring) (now : Z) (req : InsertRequest)
    (tbl : Table) : Table * InsertResponse :=
  let row := {| row_content := ins_content req;
                row_created_at := Some now;
                row_reply_to := ins_reply_to req |} in
  if decide (is_Some (tbl !! uuid)) then
    (tbl, {| ins_data := None; ins_error := Some (js "23505") |})
  else if references_ok tbl (ins_reply_to req) then
    (<[uuid := row]> tbl,
     {| ins_data := Some (to_message (uuid, row)); ins_error := None |})
  else
    (tbl, {| ins_data := None; ins_error := Some (js "23503") |}).

End Store.
Import Store.

(** ** Initial fetch: [fetchMessages] *)

(** The [{ data, error }] a select resolves to. *)
Record SelectResponse := mkSelectResponse {
  sel_data : option (list Message);
  sel_error : option jsstring
}.

(** [fetchMessages] up to its [await]: the query, built when [Date.now()]
    reads [now]. *)
Definition fetchMessages (now : Z) : SelectQuery :=
  {| gte_created_at := now - 2 * 60 * 1000; limit := 100 |}.

(** [fetchMessages] from its [await] on. *)
Definition fetchMessages_settled (r : SelectResponse) (s : State) : State :=
  match sel_data r, sel_error r with
  | Some data, None => s |> setMessages (fun _ => data)
  | _, _ => s
  end.

(** A fetch answered by the store without error. *)
Definition fetch_from (now : Z) (tbl : Table) (s : State) : State :=
  s |> fetchMessages_settled
         {| sel_data := Some (select_messages (fetchMessages now) tbl);
            sel_error := None |}.

(** ** Rendering a message card *)

(** The two parts of a card that depend on the message: the reply preview
    block and the paragraph holding the message's own content. *)
Inductive CardPart :=
  | ReplyPreview (text : jsstring)
  | MessageBody (text : jsstring).

Global Instance CardPart_eq_dec : EqDecision CardPart.
Proof. solve_decision. Defined.

Definition getRepliedMessage (msgs : list Message)
    (replyToId : option jsstring) : option Message :=
  match replyToId with
  | Some r => if negb (truthy r) then None
              else find (fun msg => id msg = r) msgs
  | None => None
  end.

(** The children of the card of [message], top to bottom (lines 304-310):
    [{repliedMessage && (...)}] and then the content paragraph. [msgs] is
    the [messages] state, which [getRepliedMessage] searches. *)
Definition render_card (msgs : list Message) (message : Message)
    : list CardPart :=
  match getRepliedMessage msgs (reply_to message) with
  | Some repliedMessage => [ReplyPreview (content repliedMessage)]
  | None => []
  end ++ [MessageBody (content message)].

(** ** Time labels: [formatTime] *)

(** [Math.floor] on a quotient of integers. As for [diffMinutes] the
    quotient is exact: over the range of [Date] time values a correctly
    rounded quotient by 1000 or by 60 never reaches the next integer. *)
Definition Math_floor (q : Q) : Z := Qfloor q.

(** [formatTime(timestamp)] when [new Date()] reads [now]. *)
Definition formatTime (now timestamp : Z) : jsstring :=
  let diff := now - timestamp in
  let seconds := Math_floor (inject_Z diff / inject_Z 1000) in
  let minutes := Math_floor (inject_Z seconds / inject_Z 60) in
  if decide (2 <= minutes) then js "expiring..."
  else if decide (0 < minutes) then number_to_string minutes ++ js "m ago"
  else if decide (0 < seconds) then number_to_string seconds ++ js "s ago"
  else js "just now".

(** ** Theme display: [getThemeName], [getThemeIcon], the send icon *)

(** The icons the component renders for a theme and on the send button. *)
Inductive Icon := Sun | Crown | SonaliKnot | Moon | Heart | Send.

Global Instance Icon_eq_dec : EqDecision Icon.
Proof. solve_decision. Defined.

Definition getThemeName (current : jsstring) : jsstring :=
  if decide (current = js "dark") then js "Dark Mode"
  else if decide (current = js "light") then js "Light Mode"
  else if decide (current = js "golden") then js "Golden Mode"
  else if decide (current = js "sonali") then js "Sonali Mode"
  else js "Dark Mode".

Definition getThemeIcon (current : jsstring) : Icon :=
  if decide (current = js "light") then Sun
  else if decide (current = js "golden") then Crown
  else if decide (current = js "sonali") then SonaliKnot
  else Moon.

(** [theme === "sonali" ? <Heart/> : <Send/>] (line 361). *)
Definition send_icon (s : State) : Icon :=
  if decide (theme s = js "sonali") then Heart else Send.

(** ** The form controls *)

(** [disabled={isLoading || !newMessage.trim()}] of the send button. *)
Definition send_disabled (s : State) : bool :=
  isLoading s || negb (truthy (trim (newMessage s))).

(** [disabled={isLoading}] of the text area. *)
Definition textarea_disabled (s : State) : bool := isLoading s.

(** ** Sequences of notifications *)

(** The DELETE handler run once for each notification of [olds], first to
    last. *)
Definition on_DELETEs (olds : list jsstring) (s : State) : State :=
  foldl (fun s' old_id => on_DELETE old_id s') s olds.

(** ** Referential integrity of the table *)

(** What [reply_to UUID REFERENCES public.messages(id)] demands of a table:
    a non-NULL [reply_to] is the key of a row. *)
Definition references_closed (tbl : Table) : Prop :=
  forall i r target,
    tbl !! i = Some r -> row_reply_to r = Some target -> is_Some (tbl !! target).

(** ** Dates without a time value *)

(** A listed message with the time value of [new Date(created_at)] made
    explicit: [None] is NaN, the time value of an Invalid Date. A row dated
    ['infinity'], or outside the range of [Date], reaches the client so.
    [Message] is the case of a date that has a time value. *)
Record RawMessage := mkRawMessage {
  raw_id : jsstring;
  raw_content : jsstring;
  raw_time : option Z;
  raw_reply_to : option jsstring
}.

Global Instance RawMessage_eq_dec : EqDecision RawMessage.
Proof. solve_decision. Defined.

Definition with_time (m : Message) : RawMessage :=
  {| raw_id := id m; raw_content := content m;
     raw_time := Some (created_at m); raw_reply_to := reply_to m |}.

(** [x < y], [x > n] and [x >= n] for numbers that may be NaN: a comparison
    with NaN is false. *)
Definition number_lt (x : option Q) (y : Q) : Prop :=
  match x with Some q => (q < y)%Q | None => False end.

Definition number_gt (x : option Z) (n : Z) : Prop :=
  match x with Some v => n < v | None => False end.

Definition number_ge (x : option Z) (n : Z) : Prop :=
  match x with Some v => n <= v | None => False end.

Global Instance number_lt_dec x y : Decision (number_lt x y).
Proof. unfold number_lt. destruct x; apply _. Defined.

Global Instance number_gt_dec x n : Decision (number_gt x n).
Proof. unfold number_gt. destruct x; apply _. Defined.

Global Instance number_ge_dec x n : Decision (number_ge x n).
Proof. unfold number_ge. destruct x; apply _. Defined.

(** The updater of [removeExpiredMessages] (lines 31-35) on such a list:
    with a NaN time value [diffMinutes] is NaN and [diffMinutes < 2] is
    false. *)
Definition keep_unexpired_raw (now : Z) (current : list RawMessage)
    : list RawMessage :=
  filter (fun msg =>
            number_lt ((fun messageTime => diffMinutes now messageTime)
                         <$> raw_time msg) (inject_Z 2))
         current.

(** [`${n}`] for a number that may be NaN. *)
Definition number_to_string_raw (n : option Z) : jsstring :=
  match n with Some v => number_to_string v | None => js "NaN" end.

(** [formatTime] (lines 216-227) on such a time value: NaN goes through the
    subtraction, the divisions and [Math.floor], and fails every test. *)
Definition formatTime_raw (now : Z) (timestamp : option Z) : jsstring :=
  let diff := (fun t => now - t) <$> timestamp in
  let seconds := (fun d => Math_floor (inject_Z d / inject_Z 1000)) <$> diff in
  let minutes :=
    (fun sec => Math_floor (inject_Z sec / inject_Z 60)) <$> seconds in
  if decide (number_ge minutes 2) then js "expiring..."
  else if decide (number_gt minutes 0)
       then number_to_string_raw minutes ++ js "m ago"
  else if decide (number_gt seconds 0)
       then number_to_string_raw seconds ++ js "s ago"
  else js "just now".

(** ** Purges in sequence *)

(** [delete_old_messages()] run at each of the store times [times], first
    to last. *)
Definition purges (times : list Z) (tbl : Table) : Table :=
  foldl (fun t now => delete_old_messages now t) tbl times.

(** ** Sample data for the scenarios below *)

(** A message of another user, already listed. *)
Definition sample_old : Message :=
  {| id := js "u0"; content := js "old"; created_at := 0; reply_to := None |}.

(** A user who has typed [" hi "] as a reply to [sample_old]. *)
Definition sample_typing : State :=
  initial_state |> setMessages (fun _ => [sample_old])
                |> setNewMessage (js " hi ")
                |> setReplyingTo (Some sample_old).

(** A user who has typed [" hi "] into an empty room. *)
Definition sample_first : State :=
  initial_state |> setNewMessage (js " hi ").

(** A table holding a message [u1] created at time 1000, a reply [u2] to it
    created at time 150000, and a row [u3] whose [created_at] is NULL. *)
Definition sample_table : Table :=
  <[js "u1" := {| row_content := js "a"; row_created_at := Some 1000;
                  row_reply_to := None |}]>
  (<[js "u2" := {| row_content := js "b"; row_created_at := Some 150000;
                   row_reply_to := Some (js "u1") |}]>
  (<[js "u3" := {| row_content := js "c"; row_created_at := None;
                   row_reply_to := None |}]> ∅)).

(** A client listing the two dated rows of [sample_table]. *)
Definition sample_client : State :=
  initial_state |> setMessages (fun _ =>
    [ {| id := js "u2"; content := js "b"; created_at := 150000;
         reply_to := Some (js "u1") |};
      {| id := js "u1"; content := js "a"; created_at := 1000;
         reply_to := None |} ]).

(** * Properties *)

(** ** Frame lemmas for the setters *)

Lemma messages_setMessages f s : messages (setMessages f s) = f (messages s).
Proof. reflexivity. Qed.

Lemma messages_setNewMessage v s : messages (setNewMessage v s) = messages s.
Proof. reflexivity. Qed.

Lemma messages_setIsLoading v s : messages (setIsLoading v s) = messages s.
Proof. reflexivity. Qed.

Lemma messages_setReplyingTo v s : messages (setReplyingTo v s) = messages s.
Proof. reflexivity. Qed.

Lemma messages_setTheme v s : messages (setTheme v s) = messages s.
Proof. reflexivity. Qed.

Create Rewrite HintDb state.
#[local] Hint Rewrite messages_setMessages messages_setNewMessage messages_setIsLoading
  messages_setReplyingTo messages_setTheme : state.

(** Reduce [messages] of a chain of setters to the updaters applied. *)
Ltac read_messages := autorewrite with state.

(** ** Strings *)

Lemma trimStart_nil_iff (x : jsstring) :
  trimStart x = [] <-> Forall (fun c => is_whitespace c = true) x.
Proof.
  induction x as [| c x IH]; simpl.
  - split; [constructor | done].
  - destruct (is_whitespace c) eqn:Hc.
    + rewrite IH. split; [by constructor | by inversion 1].
    + split; [done | inversion 1; congruence].
Qed.

Lemma trimStart_head (x : jsstring) :
  trimStart x = [] \/
  exists c r, trimStart x = c :: r /\ is_whitespace c = false.
Proof.
  induction x as [| c x IH]; simpl; [by left |].
  destruct (is_whitespace c) eqn:Hc; [exact IH |].
  right. by exists c, x.
Qed.

(** [s.trim()] is empty exactly when [s] is empty or whitespace only. *)
Lemma trim_nil_iff (x : jsstring) :
  trim x = [] <-> Forall (fun c => is_whitespace c = true) x.
Proof.
  unfold trim, trimEnd. split.
  - intros H. apply trimStart_nil_iff.
    assert (trimStart (reverse (trimStart x)) = []) as H1.
    { apply (f_equal reverse) in H. by rewrite reverse_involutive in H. }
    apply trimStart_nil_iff in H1. rewrite Forall_reverse in H1.
    destruct (trimStart_head x) as [-> | (c & r & Hx & Hc)]; [done |].
    rewrite Hx in H1. inversion H1; congruence.
  - intros H. apply trimStart_nil_iff in H. by rewrite H.
Qed.

(** Tab, line feed, space, no-break space, ideographic space and the byte
    order mark are stripped; a letter, the zero-width space (U+200B) and
    NEL (U+0085) are not. *)
Example trim_samples :
  trim (js " hi there ") = js "hi there"
  /\ trim [9; 10; 32; 160; 12288; 65279]%N = []
  /\ trim [32; 8203; 32]%N = [8203]%N
  /\ trim [133]%N = [133]%N
  /\ trim [] = [].
Proof. by vm_compute. Qed.

(** ** C1: client-side expiry *)

Lemma diffMinutes_lt_2 (now t : Z) :
  (diffMinutes now t < inject_Z 2)%Q <-> now - t < two_minutes.
Proof.
  unfold diffMinutes, two_minutes, Qlt, Qdiv, Qmult, Qinv, inject_Z; simpl.
  lia.
Qed.

(** Around the two-minute boundary the doubles decide as the exact
    quotient does, for small and for present-day time values. *)
Example diffMinutes_binary64_boundary :
  let now := 1700000120000 in
  (diffMinutes_binary64 119999 0 <? 2)%float = true
  /\ (diffMinutes_binary64 120000 0 <? 2)%float = false
  /\ (diffMinutes_binary64 120001 0 <? 2)%float = false
  /\ (diffMinutes_binary64 now (now - 119999) <? 2)%float = true
  /\ (diffMinutes_binary64 now (now - 120000) <? 2)%float = false
  /\ (diffMinutes_binary64 now (now + 5) <? 2)%float = true.
Proof. vm_compute. done. Qed.

Lemma keep_unexpired_filter (now : Z) (l : list Message) :
  keep_unexpired now l = filter (fun m => now - created_at m < two_minutes) l.
Proof.
  unfold keep_unexpired. induction l as [| m l IH]; [done |].
  rewrite !filter_cons, IH.
  destruct (decide (diffMinutes now (created_at m) < inject_Z 2)%Q) as [H | H],
           (decide (now - created_at m < two_minutes)) as [H' | H'];
    try done; apply diffMinutes_lt_2 in H || apply diffMinutes_lt_2 in H'; done.
Qed.

(** C1. [removeExpiredMessages] keeps a message iff [now - created_at] is
    strictly below two minutes: the new list is the old one filtered by that
    test, so survivors keep their order and multiplicity, and nothing else of
    the state changes. A message 119 s old stays, one 121 s old goes. *)
Theorem removeExpiredMessages_spec (now : Z) (s : State) :
  messages (removeExpiredMessages now s)
    = filter (fun m => now - created_at m < two_minutes) (messages s)
  /\ (forall m, m ∈ messages (removeExpiredMessages now s)
                <-> m ∈ messages s /\ now - created_at m < two_minutes)
  /\ (forall m, m ∈ messages s -> two_minutes <= now - created_at m ->
                m ∉ messages (removeExpiredMessages now s))
  /\ messages (removeExpiredMessages now s) `sublist_of` messages s
  /\ (forall m, m ∈ messages s -> now - created_at m = 119 * 1000 ->
                m ∈ messages (removeExpiredMessages now s))
  /\ (forall m, now - created_at m = 121 * 1000 ->
                m ∉ messages (removeExpiredMessages now s))
  /\ newMessage (removeExpiredMessages now s) = newMessage s
  /\ isLoading (removeExpiredMessages now s) = isLoading s
  /\ replyingTo (removeExpiredMessages now s) = replyingTo s
  /\ theme (removeExpiredMessages now s) = theme s.
Proof.
  unfold removeExpiredMessages. rewrite messages_setMessages, keep_unexpired_filter.
  assert (forall m, m ∈ filter (fun m => now - created_at m < two_minutes) (messages s)
                    <-> m ∈ messages s /\ now - created_at m < two_minutes) as Hin.
  { intros m. rewrite list_elem_of_filter. tauto. }
  repeat split; try (intros; apply Hin; tauto).
  - intros m Hm Hold [_ Hlt]%Hin. lia.
  - apply sublist_filter.
  - intros m Hm Hage. apply Hin. split; [done |]. unfold two_minutes. lia.
  - intros m Hage [_ Hlt]%Hin. unfold two_minutes in Hlt. lia.
Qed.

(** The scenario of the specification: a message created at time 0 is
    still listed by a tick at 119 s (and at 119.999 s), and is gone after a
    tick at 120 s or 121 s. *)
Example expiry_scenario :
  let A := {| id := js "A"; content := js "hello"; created_at := 0;
              reply_to := None |} in
  let s := initial_state |> setMessages (fun _ => [A]) in
  messages (removeExpiredMessages 119000 s) = [A]
  /\ messages (removeExpiredMessages 119999 s) = [A]
  /\ messages (removeExpiredMessages 120000 s) = []
  /\ messages (removeExpiredMessages 121000 s) = [].
Proof. vm_compute. done. Qed.

(** ** C10: the INSERT handler keeps ids distinct *)

Lemma some_true_iff {A} (P : A -> Prop) `{forall x, Decision (P x)} (l : list A) :
  some P l = true <-> exists x, x ∈ l /\ P x.
Proof. unfold some. rewrite bool_decide_eq_true. apply Exists_exists. Qed.

Lemma insert_update_present (p : Message) (l : list Message) :
  id p ∈ id <$> l -> insert_update p l = l.
Proof.
  intros (m & Hid & Hm)%list_elem_of_fmap. unfold insert_update.
  assert (some (fun msg => id msg = id p) l = true) as ->; [| done].
  apply some_true_iff. eauto.
Qed.

Lemma insert_update_absent (p : Message) (l : list Message) :
  id p ∉ id <$> l -> insert_update p l = p :: l.
Proof.
  intros Hnot. unfold insert_update.
  destruct (some (fun msg => id msg = id p) l) eqn:E; [| done].
  apply some_true_iff in E as (m & Hm & Hid). destruct Hnot.
  apply list_elem_of_fmap. eauto.
Qed.

(** C10. If the ids of the local list are pairwise distinct before an
    INSERT event they are pairwise distinct after it: the payload is
    prepended only when no listed message has its id, and otherwise the
    list is returned as it was. *)
Theorem on_INSERT_preserves_distinct_ids (p : Message) (s : State) :
  NoDup (id <$> messages s) ->
  NoDup (id <$> messages (on_INSERT p s))
  /\ (id p ∈ id <$> messages s -> messages (on_INSERT p s) = messages s)
  /\ (id p ∉ id <$> messages s -> messages (on_INSERT p s) = p :: messages s).
Proof.
  intros Hnd. unfold on_INSERT. rewrite messages_setMessages.
  split; [| split; [apply insert_update_present | apply insert_update_absent]].
  destruct (decide (id p ∈ id <$> messages s)) as [Hin | Hout].
  - by rewrite insert_update_present.
  - rewrite insert_update_absent by done. rewrite fmap_cons.
    by apply NoDup_cons.
Qed.

Lemma on_INSERT_preserves_distinct_ids_witness :
  let a := {| id := js "a"; content := js "x"; created_at := 1; reply_to := None |} in
  let b := {| id := js "b"; content := js "y"; created_at := 2; reply_to := None |} in
  NoDup (id <$> messages (on_INSERT b (initial_state |> setMessages (fun _ => [a]))))
  /\ messages (on_INSERT a (initial_state |> setMessages (fun _ => [a]))) = [a].
Proof.
  intros a b.
  assert (NoDup (id <$> messages (initial_state |> setMessages (fun _ => [a])))) as Hnd.
  { simpl. apply NoDup_singleton. }
  split.
  - exact (proj1 (on_INSERT_preserves_distinct_ids b _ Hnd)).
  - apply (proj1 (proj2 (on_INSERT_preserves_distinct_ids a _ Hnd))).
    simpl. apply list_elem_of_here.
Defined.

(** ** C9: the guard of [handleSendMessage] *)

(** C9. With an input that is empty or whitespace only (that is, whose
    [trim()] is empty), or while a send is in flight, [handleSendMessage]
    returns at its guard: the whole state, so the message list, the input
    text, the reply target and the loading flag, is unchanged and no insert
    request is issued. *)
Theorem handleSendMessage_guard (clock_id clock_created : Z) (s : State) :
  trim (newMessage s) = []
  \/ Forall (fun c => is_whitespace c = true) (newMessage s)
  \/ isLoading s = true ->
  handleSendMessage clock_id clock_created s = (s, None)
  /\ messages (fst (handleSendMessage clock_id clock_created s)) = messages s
  /\ newMessage (fst (handleSendMessage clock_id clock_created s)) = newMessage s
  /\ replyingTo (fst (handleSendMessage clock_id clock_created s)) = replyingTo s
  /\ isLoading (fst (handleSendMessage clock_id clock_created s)) = isLoading s
  /\ snd (handleSendMessage clock_id clock_created s) = None.
Proof.
  intros H.
  assert (handleSendMessage clock_id clock_created s = (s, None)) as ->;
    [| done].
  unfold handleSendMessage.
  destruct H as [H | [H | H]].
  - by rewrite H.
  - apply trim_nil_iff in H. by rewrite H.
  - rewrite H. by rewrite orb_true_r.
Qed.

Lemma handleSendMessage_guard_witness :
  handleSendMessage 5 6 (initial_state |> setNewMessage (js "  "))
  = (initial_state |> setNewMessage (js "  "), None)
  /\ handleSendMessage 5 6 (sample_first |> setIsLoading true)
     = (sample_first |> setIsLoading true, None).
Proof.
  split.
  - apply (handleSendMessage_guard 5 6 (initial_state |> setNewMessage (js "  "))).
    left. reflexivity.
  - apply (handleSendMessage_guard 5 6 (sample_first |> setIsLoading true)).
    right. right. reflexivity.
Defined.

(** ** Sending: what [handleSendMessage] does past its guard *)

Lemma handleSendMessage_sends (clock_id clock_created : Z) (s : State) :
  trim (newMessage s) <> [] -> isLoading s = false ->
  exists s1 req k,
    handleSendMessage clock_id clock_created s = (s1, Some (req, k))
    /\ messages s1 = optimisticMessage k :: messages s
    /\ id (optimisticMessage k) = js "temp-" ++ number_to_string clock_id
    /\ content (optimisticMessage k) = trim (newMessage s)
    /\ ins_content req = trim (newMessage s)
    /\ newMessage s1 = [] /\ replyingTo s1 = None /\ isLoading s1 = true.
Proof.
  intros Hne Hl. unfold handleSendMessage.
  destruct (trim (newMessage s)) as [| c r] eqn:E; [done |].
  rewrite Hl. simpl. do 3 eexists. split; [reflexivity |]. simpl. done.
Qed.

(** What a successful start of a send fixes about its result. *)
Lemma handleSendMessage_started (clock_id clock_created : Z)
    (s s1 : State) (req : InsertRequest) (k : SendPending) :
  handleSendMessage clock_id clock_created s = (s1, Some (req, k)) ->
  s1 = (s |> setIsLoading true |> setNewMessage [] |> setReplyingTo None
          |> setMessages (fun current => optimisticMessage k :: current))
  /\ id (optimisticMessage k) = js "temp-" ++ number_to_string clock_id
  /\ messageContent k = trim (newMessage s)
  /\ currentReplyTo k = replyingTo s
  /\ isLoading s = false.
Proof.
  unfold handleSendMessage.
  destruct (negb (truthy (trim (newMessage s))) || isLoading s) eqn:G; [done |].
  apply orb_false_elim in G as [_ Hl].
  intros [= <- <- <-]. done.
Qed.

Lemma filter_id_ne_fresh (x : jsstring) (l : list Message) :
  x ∉ id <$> l -> filter (fun m => id m <> x) l = l.
Proof.
  induction l as [| m l IH]; [done |].
  rewrite fmap_cons, not_elem_of_cons. intros [Hne Hl].
  rewrite filter_cons_True by done. by rewrite IH.
Qed.

Lemma filter_drop_head (x : Message) (l : list Message) :
  filter (fun m => id m <> id x) (x :: l) = filter (fun m => id m <> id x) l.
Proof. rewrite filter_cons. by destruct (decide (id x <> id x)). Qed.

(** ** C3: rollback of a failed send *)

(** C3. When the insert resolves with an error, whatever happened to the
    list in between, the continuation removes the messages carrying the
    temporary id and nothing else, puts the trimmed content that was sent
    back into the input, restores the reply target of before the send and
    clears the loading flag. When the optimistic message is the only one
    with its id, exactly that entry disappears; with no event in between
    the list is the one of before the send. *)
Theorem send_failure_rolls_back (clock_id clock_created : Z)
    (s s1 cur : State) (req : InsertRequest) (k : SendPending)
    (data : option Message) (err : jsstring) :
  handleSendMessage clock_id clock_created s = (s1, Some (req, k)) ->
  let s2 := handleSendMessage_settled k
              {| ins_data := data; ins_error := Some err |} cur in
  messages s2
    = filter (fun m => id m <> id (optimisticMessage k)) (messages cur)
  /\ (forall m, id m <> id (optimisticMessage k) ->
                (m ∈ messages s2 <-> m ∈ messages cur))
  /\ (forall m, m ∈ messages s2 -> id m <> id (optimisticMessage k))
  /\ (forall pre post,
        messages cur = pre ++ optimisticMessage k :: post ->
        id (optimisticMessage k) ∉ id <$> (pre ++ post) ->
        messages s2 = pre ++ post)
  /\ newMessage s2 = trim (newMessage s)
  /\ replyingTo s2 = replyingTo s
  /\ isLoading s2 = false
  /\ theme s2 = theme cur
  /\ (id (optimisticMessage k) ∉ id <$> messages s ->
      handleSendMessage_settled k
        {| ins_data := data; ins_error := Some err |} s1
      = setNewMessage (trim (newMessage s)) s).
Proof.
  intros Hstart s2.
  destruct (handleSendMessage_started _ _ _ _ _ _ Hstart)
    as (Hs1 & Hid & Hcontent & Hreply & Hload).
  subst s2. unfold handleSendMessage_settled. simpl.
  rewrite Hcontent, Hreply.
  split_and!; try done.
  - intros m Hm. rewrite list_elem_of_filter. tauto.
  - intros m Hm. apply list_elem_of_filter in Hm. tauto.
  - intros pre post Hcur Hfresh.
    rewrite Hcur, filter_app, filter_drop_head, <- filter_app.
    by apply filter_id_ne_fresh.
  - intros Hfresh. rewrite Hs1. destruct s as [ms nm il th rt st].
    unfold setIsLoading, setReplyingTo, setNewMessage, setMessages.
    cbn [messages newMessage isLoading theme replyingTo showTooltip] in *.
    rewrite filter_drop_head, filter_id_ne_fresh by done. by rewrite Hload.
Qed.

(** A reply to [sample_old] is refused by the store, which no longer holds
    that row (foreign-key violation): the state is the one of before the
    send, with the trimmed text in the input. *)
Lemma send_failure_rolls_back_witness :
  exists s1 req k,
    handleSendMessage 1000 1000 sample_typing = (s1, Some (req, k))
    /\ snd (insert_message (js "u1") 1000 req ∅)
       = {| ins_data := None; ins_error := Some (js "23503") |}
    /\ handleSendMessage_settled k
         {| ins_data := None; ins_error := Some (js "23503") |} s1
       = setNewMessage (js "hi") sample_typing.
Proof.
  do 3 eexists. split; [vm_compute; reflexivity |].
  split; [vm_compute; reflexivity |].
  destruct (send_failure_rolls_back 1000 1000 sample_typing _ sample_typing
              _ _ None (js "23503") eq_refl) as (_ & _ & _ & _ & _ & _ & _ & _ & Hback).
  apply Hback. intros (m & Hid & Hm)%list_elem_of_fmap.
  apply list_elem_of_singleton in Hm. subst m. discriminate Hid.
Defined.

(** ** C2: optimistic insert, confirmation and the realtime echo *)

Lemma replace_optimistic_fresh (x : jsstring) (data : Message) (l : list Message) :
  x ∉ id <$> l ->
  (fun msg => if decide (id msg = x) then data else msg) <$> l = l.
Proof.
  induction l as [| m l IH]; [done |].
  rewrite fmap_cons, not_elem_of_cons. intros [Hne Hl].
  rewrite fmap_cons, IH by done.
  destruct (decide (id m = x)); [congruence | done].
Qed.

(** The order "response, then echo": the confirmed row takes the place of
    the optimistic entry and the echo is recognised by its id. *)
Lemma send_response_then_echo (clock_id clock_created : Z)
    (s s1 : State) (req : InsertRequest) (k : SendPending) (row : Message) :
  handleSendMessage clock_id clock_created s = (s1, Some (req, k)) ->
  id (optimisticMessage k) ∉ id <$> messages s ->
  messages (s1 |> handleSendMessage_settled k
                    {| ins_data := Some row; ins_error := None |}
               |> on_INSERT row)
  = row :: messages s.
Proof.
  intros Hstart Hfresh.
  destruct (handleSendMessage_started _ _ _ _ _ _ Hstart) as (-> & _).
  unfold on_INSERT, handleSendMessage_settled.
  cbn [ins_error ins_data]. read_messages.
  rewrite fmap_cons, replace_optimistic_fresh by done.
  destruct (decide (id (optimisticMessage k) = id (optimisticMessage k)));
    [| done].
  apply insert_update_present. rewrite fmap_cons. apply list_elem_of_here.
Qed.

(** The order "echo, then response": the echo carries the server's id, the
    list holds the optimistic entry under its temporary id, so the echo is
    prepended; the response then turns the optimistic entry into a second
    copy of the same row. *)
Lemma send_echo_then_response (clock_id clock_created : Z)
    (s s1 : State) (req : InsertRequest) (k : SendPending) (row : Message) :
  handleSendMessage clock_id clock_created s = (s1, Some (req, k)) ->
  id (optimisticMessage k) ∉ id <$> messages s ->
  id row ∉ id <$> messages s ->
  id row <> id (optimisticMessage k) ->
  messages (s1 |> on_INSERT row
               |> handleSendMessage_settled k
                    {| ins_data := Some row; ins_error := None |})
  = row :: row :: messages s.
Proof.
  intros Hstart Hfresh Hnew Hne.
  destruct (handleSendMessage_started _ _ _ _ _ _ Hstart) as (-> & _).
  unfold on_INSERT, handleSendMessage_settled.
  cbn [ins_error ins_data]. read_messages.
  rewrite insert_update_absent.
  - rewrite !fmap_cons, replace_optimistic_fresh by done.
    destruct (decide (id row = id (optimisticMessage k))); [done |].
    destruct (decide (id (optimisticMessage k) = id (optimisticMessage k)));
      done.
  - rewrite fmap_cons, not_elem_of_cons. done.
Qed.

(** C2, evaluated. A user types [" hi "] into an empty room and sends it.
    The optimistic copy is put on top at once. The store inserts the row
    under the id [u1]; when the response is handled before the echo one
    copy of the row is listed, but when the echo is handled first the list
    ends with two entries for the row [u1]. *)
Theorem send_echo_before_response_duplicates :
  exists s1 req k row,
    handleSendMessage 1000 1000 sample_first = (s1, Some (req, k))
    /\ messages s1 = [optimisticMessage k]
    /\ content (optimisticMessage k) = js "hi"
    /\ snd (insert_message (js "u1") 1001 req ∅)
       = {| ins_data := Some row; ins_error := None |}
    /\ id row = js "u1"
    /\ messages (s1 |> handleSendMessage_settled k
                         {| ins_data := Some row; ins_error := None |}
                    |> on_INSERT row)
       = [row]
    /\ messages (s1 |> on_INSERT row
                    |> handleSendMessage_settled k
                         {| ins_data := Some row; ins_error := None |})
       = [row; row].
Proof.
  do 4 eexists. split; [vm_compute; reflexivity |].
  split; [reflexivity |]. split; [reflexivity |].
  split; [vm_compute; reflexivity |].
  split; [reflexivity |]. split; vm_compute; reflexivity.
Qed.

(** ** C8: the theme cycle and its persistence *)

Lemma nextTheme_unknown (x : jsstring) : x ∉ themes -> nextTheme x = js "dark".
Proof.
  intros Hx.
  assert (list_find (fun y => y = x) themes = None) as Hfind.
  { apply list_find_None, Forall_forall. intros y Hy ->. done. }
  unfold nextTheme, indexOf. by rewrite Hfind.
Qed.

Lemma nextTheme_in_themes (x : jsstring) : nextTheme x ∈ themes.
Proof.
  destruct (decide (x ∈ themes)) as [Hin | Hout].
  - unfold themes in Hin. set_unfold.
    destruct Hin as [-> | [-> | [-> | [-> | []]]]]; vm_compute; set_solver.
  - rewrite nextTheme_unknown by done. unfold themes. set_solver.
Qed.

Lemma themes_truthy (x : jsstring) : x ∈ themes -> truthy x = true.
Proof.
  unfold themes. set_unfold. by intros [-> | [-> | [-> | [-> | []]]]].
Qed.

(** The mount effect adopts a saved, non-empty theme. *)
Lemma load_saved_theme (storage : gmap jsstring jsstring) (t : jsstring) :
  storage !! js "theme" = Some t -> truthy t = true ->
  theme (fst (load storage)) = t
  /\ data_theme (snd (load storage)) = Some t
  /\ localStorage (snd (load storage)) = storage.
Proof.
  intros Hsaved Ht. unfold load, mount_theme.
  cbn [localStorage]. rewrite Hsaved, Ht. done.
Qed.

(** C8. [toggleTheme] steps dark, light, golden, sonali and back to dark;
    each toggle sets the theme state, writes the new theme under the key
    [theme] of the local storage and on the document; four toggles from any
    of the four themes give back the starting state; and a reload after a
    toggle comes up with the theme that toggle chose. *)
Theorem toggleTheme_cycle :
  nextTheme (js "dark") = js "light"
  /\ nextTheme (js "light") = js "golden"
  /\ nextTheme (js "golden") = js "sonali"
  /\ nextTheme (js "sonali") = js "dark"
  /\ (forall s b,
        fst (toggleTheme (s, b)) = setTheme (nextTheme (theme s)) s
        /\ localStorage (snd (toggleTheme (s, b))) !! js "theme"
           = Some (nextTheme (theme s))
        /\ data_theme (snd (toggleTheme (s, b))) = Some (nextTheme (theme s)))
  /\ (forall s b, theme s ∈ themes ->
        fst (Nat.iter 4 toggleTheme (s, b)) = s
        /\ localStorage (snd (Nat.iter 4 toggleTheme (s, b))) !! js "theme"
           = Some (theme s))
  /\ (forall p,
        theme (fst (reload (toggleTheme p))) = theme (fst (toggleTheme p))
        /\ data_theme (snd (reload (toggleTheme p)))
           = Some (theme (fst (toggleTheme p)))).
Proof.
  do 4 (split; [vm_compute; reflexivity |]). split_and!.
  - intros s b. unfold toggleTheme. cbn [fst snd localStorage data_theme].
    by rewrite lookup_insert_eq.
  - intros s b Hin. unfold themes in Hin. set_unfold.
    cbn [Nat.iter]. unfold toggleTheme.
    cbn [fst snd localStorage data_theme theme setTheme].
    rewrite lookup_insert_eq. destruct s as [ms nm il th rt st].
    cbn [theme messages newMessage isLoading replyingTo showTooltip] in *.
    destruct Hin as [-> | [-> | [-> | [-> | []]]]]; split; vm_compute; reflexivity.
  - intros [s b]. unfold reload, toggleTheme.
    cbn [fst snd localStorage data_theme theme setTheme].
    destruct (load_saved_theme (<[js "theme" := nextTheme (theme s)]> (localStorage b))
                (nextTheme (theme s))) as (H1 & H2 & _).
    + by rewrite lookup_insert_eq.
    + apply themes_truthy, nextTheme_in_themes.
    + done.
Qed.

(** ** C7: the reply preview *)

Lemma find_Some {A} (P : A -> Prop) `{forall x, Decision (P x)}
    (l : list A) (x : A) :
  find P l = Some x -> x ∈ l /\ P x.
Proof.
  unfold find. destruct (list_find P l) as [[i y] |] eqn:E; [| done].
  intros [= <-]. apply list_find_Some in E as (Hi & HP & _).
  split; [by eapply list_elem_of_lookup_2 | done].
Qed.

Lemma find_is_Some {A} (P : A -> Prop) `{forall x, Decision (P x)} (l : list A) :
  is_Some (find P l) <-> exists x, x ∈ l /\ P x.
Proof.
  unfold find. rewrite fmap_is_Some. split.
  - intros [[i y] (Hi & HP & _)%list_find_Some]. exists y.
    split; [by eapply list_elem_of_lookup_2 | done].
  - intros (x & Hx & HP). by eapply list_find_elem_of.
Qed.

(** [getRepliedMessage] finds a message exactly for a reply target that is
    a non-empty string and the id of a listed message. *)
Lemma getRepliedMessage_is_Some (msgs : list Message) (target : option jsstring) :
  is_Some (getRepliedMessage msgs target)
  <-> exists r, target = Some r /\ r <> [] /\ exists x, x ∈ msgs /\ id x = r.
Proof.
  unfold getRepliedMessage. destruct target as [r |].
  - destruct r as [| c r]; cbn [truthy negb].
    + split; [by intros [? ?] | by intros (r & [= <-] & ? & _)].
    + rewrite find_is_Some. split.
      * intros Hx. exists (c :: r). done.
      * by intros (r' & [= <-] & _ & Hx).
  - split; [by intros [? ?] | by intros (r & ? & _)].
Qed.

(** The card for any [reply_to], the empty string included: it shows a
    preview directly above [m]'s own content iff [m.reply_to] is a non-empty
    string and a listed message has that id; the preview then shows the
    content of a listed message with that id, and otherwise the card shows
    [m]'s content alone. *)
Lemma render_card_preview (msgs : list Message) (m : Message) :
  ((exists text,
      render_card msgs m = [ReplyPreview text; MessageBody (content m)])
   <-> exists r, reply_to m = Some r /\ r <> []
                 /\ exists x, x ∈ msgs /\ id x = r)
  /\ (forall text,
        render_card msgs m = [ReplyPreview text; MessageBody (content m)] ->
        exists x, x ∈ msgs /\ reply_to m = Some (id x) /\ text = content x)
  /\ ((~ exists r, reply_to m = Some r /\ r <> []
                   /\ exists x, x ∈ msgs /\ id x = r)
      <-> render_card msgs m = [MessageBody (content m)]).
Proof.
  pose proof (getRepliedMessage_is_Some msgs (reply_to m)) as Hiff.
  unfold render_card in *.
  destruct (getRepliedMessage msgs (reply_to m)) as [x |] eqn:E; cbn [app].
  - assert (exists r, reply_to m = Some r /\ r <> []
                      /\ exists x, x ∈ msgs /\ id x = r) as Hex
      by (apply Hiff; eauto).
    split_and!.
    + split; [done | eauto].
    + intros text [= <-]. unfold getRepliedMessage in E.
      destruct (reply_to m) as [r |]; [| done].
      destruct (negb (truthy r)); [done |].
      apply find_Some in E as [Hx <-]. eauto.
    + split; [done | discriminate].
  - assert (~ exists r, reply_to m = Some r /\ r <> []
                        /\ exists x, x ∈ msgs /\ id x = r) as Hno.
    { intros Hex. apply Hiff in Hex. by destruct Hex. }
    split_and!.
    + split; [by intros [text [=]] | done].
    + by intros text [=].
    + done.
Qed.

(** A reply target set by the component is never the empty string:
    [replyingTo?.id || null] turns it into [null]. *)
Lemma id_or_null_not_empty (r : option Message) : id_or_null r <> Some [].
Proof.
  unfold id_or_null. destruct r as [m |]; [| done].
  by destruct (id m) as [| c x].
Qed.

(** C7. For a message [m] whose [reply_to] is null or an id (ids are UUIDs
    or [temp-<n>], never the empty string), the card of [m] shows a preview
    of the replied-to message's content directly above [m]'s own content
    iff [m.reply_to] is non-null and a message with that id is listed; the
    preview shows the content of such a message; with [reply_to] null or
    no such message listed the card shows [m]'s content alone. *)
Theorem reply_preview_iff_target_listed (msgs : list Message) (m : Message) :
  reply_to m <> Some [] ->
  ((exists text,
      render_card msgs m = [ReplyPreview text; MessageBody (content m)])
   <-> reply_to m <> None
       /\ exists x, x ∈ msgs /\ Some (id x) = reply_to m)
  /\ (forall text,
        render_card msgs m = [ReplyPreview text; MessageBody (content m)] ->
        exists x, x ∈ msgs /\ Some (id x) = reply_to m /\ text = content x)
  /\ (reply_to m = None
      \/ (forall x, x ∈ msgs -> Some (id x) <> reply_to m) ->
      render_card msgs m = [MessageBody (content m)]).
Proof.
  intros Hid. destruct (render_card_preview msgs m) as (Hshown & Htext & Hplain).
  assert ((exists r, reply_to m = Some r /\ r <> []
                     /\ exists x, x ∈ msgs /\ id x = r)
          <-> reply_to m <> None
              /\ exists x, x ∈ msgs /\ Some (id x) = reply_to m) as Hsame.
  { split.
    - intros (r & Hr & _ & x & Hx & <-). rewrite Hr. split; [done | eauto].
    - intros (_ & x & Hx & Hr). exists (id x). split_and!; [done | | eauto].
      intros Hempty. apply Hid. by rewrite <- Hr, Hempty. }
  split_and!.
  - by rewrite Hshown.
  - intros text Hcard. destruct (Htext text Hcard) as (x & Hx & Hr & ->).
    exists x. by rewrite Hr.
  - intros Hnone. apply Hplain. rewrite Hsame. intros (Hsome & x & Hx & Hr).
    destruct Hnone as [Hnull | Habsent]; [done | by destruct (Habsent x Hx)].
Qed.

(** The optimistic entry of a reply to [sample_old], listed above it, shows
    the content of [sample_old] as its preview. *)
Lemma reply_preview_iff_target_listed_witness :
  let reply := {| id := js "temp-1000"; content := js "hi"; created_at := 1000;
                  reply_to := id_or_null (Some sample_old) |} in
  exists text,
    render_card [reply; sample_old] reply
    = [ReplyPreview text; MessageBody (js "hi")].
Proof.
  intros reply.
  apply (proj1 (reply_preview_iff_target_listed [reply; sample_old] reply
                  (id_or_null_not_empty (Some sample_old)))).
  split; [done |]. exists sample_old.
  split; [apply list_elem_of_further, list_elem_of_here | done].
Defined.

(** ** The store: deletion *)

Section delete_where.
Context (cond : jsstring * Row -> Prop) `{!forall x, Decision (cond x)}.

Lemma elem_of_deleted_keys (tbl : Table) (i : jsstring) :
  i ∈ deleted_keys cond tbl <-> exists r, tbl !! i = Some r /\ cond (i, r).
Proof.
  unfold deleted_keys. rewrite elem_of_dom. unfold is_Some.
  by setoid_rewrite map_lookup_filter_Some.
Qed.

Lemma lookup_delete_where (tbl : Table) (i : jsstring) :
  delete_where cond tbl !! i
  = match tbl !! i with
    | Some r => if decide (cond (i, r)) then None
                else Some (set_null (deleted_keys cond tbl) r)
    | None => None
    end.
Proof.
  unfold delete_where, deleted_keys. rewrite lookup_fmap, map_lookup_filter.
  destruct (tbl !! i) as [r |]; [| done]. cbn.
  destruct (decide (cond (i, r))) as [Hc | Hc].
  - rewrite option_guard_False by tauto. done.
  - rewrite option_guard_True by done. done.
Qed.

Lemma set_null_empty (r : Row) : set_null ∅ r = r.
Proof.
  unfold set_null. destruct (row_reply_to r) as [t |]; [| done].
  destruct (decide (t ∈ (∅ : gset jsstring))); [set_solver | done].
Qed.

Lemma delete_where_nothing (tbl : Table) :
  (forall i r, tbl !! i = Some r -> ~ cond (i, r)) ->
  delete_where cond tbl = tbl.
Proof.
  intros Hnone. apply map_eq. intros i. rewrite lookup_delete_where.
  destruct (tbl !! i) as [r |] eqn:E; [| done].
  destruct (decide (cond (i, r))) as [Hc | _]; [by destruct (Hnone i r) |].
  assert (deleted_keys cond tbl = ∅) as ->; [| by rewrite set_null_empty].
  apply set_eq. intros j. rewrite elem_of_deleted_keys.
  split; [| set_solver]. intros (r' & Hj & Hc). by destruct (Hnone j r').
Qed.

(** The condition of the statement reads columns the foreign-key action
    leaves alone. *)
Hypothesis cond_set_null :
  forall gone i r, cond (i, set_null gone r) <-> cond (i, r).

Lemma delete_where_leaves_none (tbl : Table) (i : jsstring) (r : Row) :
  delete_where cond tbl !! i = Some r -> ~ cond (i, r).
Proof.
  rewrite lookup_delete_where. destruct (tbl !! i) as [r0 |]; [| done].
  destruct (decide (cond (i, r0))) as [| Hc]; [done |].
  intros [= <-]. by rewrite cond_set_null.
Qed.

Lemma delete_where_idempotent (tbl : Table) :
  delete_where cond (delete_where cond tbl) = delete_where cond tbl.
Proof. apply delete_where_nothing, delete_where_leaves_none. Qed.

End delete_where.

Lemma older_than_two_minutes_set_null now gone i r :
  older_than_two_minutes now (i, set_null gone r)
  <-> older_than_two_minutes now (i, r).
Proof.
  unfold older_than_two_minutes, set_null. cbn [snd].
  destruct (row_reply_to r) as [t |]; [| done].
  by destruct (decide (t ∈ gone)).
Qed.

Lemma set_null_columns gone r :
  row_content (set_null gone r) = row_content r
  /\ row_created_at (set_null gone r) = row_created_at r.
Proof.
  unfold set_null. destruct (row_reply_to r) as [t |]; [| done].
  by destruct (decide (t ∈ gone)).
Qed.

(** ** C4: [delete_old_messages] *)

(** C4. [delete_old_messages], run at store time [now], deletes exactly the
    rows whose [created_at] lies before [now] minus two minutes: such a row
    is gone, any other row stays under its key with its content and
    timestamp, and no row appears. Running it again at the same time
    changes nothing, and on a table without such rows it changes
    nothing at all. *)
Theorem delete_old_messages_spec (now : Z) (tbl : Table) :
  (forall i r, tbl !! i = Some r ->
     (older_than_two_minutes now (i, r)
      <-> exists t, row_created_at r = Some t /\ t < now - 2 * 60 * 1000)
     /\ (older_than_two_minutes now (i, r) ->
         delete_old_messages now tbl !! i = None)
     /\ (~ older_than_two_minutes now (i, r) ->
         exists r', delete_old_messages now tbl !! i = Some r'
                    /\ row_content r' = row_content r
                    /\ row_created_at r' = row_created_at r))
  /\ (forall i, tbl !! i = None -> delete_old_messages now tbl !! i = None)
  /\ dom (delete_old_messages now tbl)
     = dom tbl ∖ deleted_keys (older_than_two_minutes now) tbl
  /\ delete_old_messages now (delete_old_messages now tbl)
     = delete_old_messages now tbl
  /\ deleted_keys (older_than_two_minutes now) (delete_old_messages now tbl) = ∅
  /\ ((forall i r, tbl !! i = Some r -> ~ older_than_two_minutes now (i, r)) ->
      delete_old_messages now tbl = tbl).
Proof.
  unfold delete_old_messages. split_and!.
  - intros i r Hi. split_and!.
    + unfold older_than_two_minutes. cbn [snd].
      destruct (row_created_at r) as [t |].
      * split; [intros Ht; exists t; by unfold two_minutes in Ht |].
        intros (t' & [= <-] & Ht). by unfold two_minutes.
      * split; [done | by intros (t & ? & _)].
    + intros Hold. rewrite lookup_delete_where, Hi.
      by destruct (decide (older_than_two_minutes now (i, r))).
    + intros Hnew. rewrite lookup_delete_where, Hi.
      destruct (decide (older_than_two_minutes now (i, r))); [done |].
      eexists. split; [done |]. apply set_null_columns.
  - intros i Hi. by rewrite lookup_delete_where, Hi.
  - apply set_eq. intros i.
    rewrite elem_of_difference, !elem_of_dom, elem_of_deleted_keys.
    rewrite lookup_delete_where. unfold is_Some.
    destruct (tbl !! i) as [r |] eqn:E.
    + destruct (decide (older_than_two_minutes now (i, r))) as [Hc | Hc].
      * split; [by intros [? ?] |]. intros [_ Hno]. destruct Hno. eauto.
      * split; [| eauto]. intros _. split; [eauto |].
        by intros (r' & [= <-] & Hc').
    + split; [by intros [? ?] | by intros [[? ?] _]].
  - apply delete_where_idempotent. apply older_than_two_minutes_set_null.
  - apply set_eq. intros i. rewrite elem_of_deleted_keys.
    split; [| set_solver]. intros (r & Hi & Hc).
    destruct (delete_where_leaves_none _
                (older_than_two_minutes_set_null now) _ _ _ Hi Hc).
  - apply delete_where_nothing.
Qed.

(** [delete_old_messages] on [sample_table] at time 200000: the row [u1]
    goes, the reply [u2] stays with its [reply_to] nulled, the undated row
    [u3] stays, and a second run changes nothing. *)
Example delete_old_messages_sample :
  map_to_list (delete_old_messages 200000 sample_table)
  ≡ₚ [ (js "u2", {| row_content := js "b"; row_created_at := Some 150000;
                    row_reply_to := None |});
       (js "u3", {| row_content := js "c"; row_created_at := None;
                    row_reply_to := None |}) ]
  /\ delete_old_messages 200000 (delete_old_messages 200000 sample_table)
     = delete_old_messages 200000 sample_table.
Proof.
  split; [| by vm_compute].
  vm_compute. apply Permutation_swap.
Qed.

(** ** C6: a deletion reaches every client, and the references *)

Lemma on_DELETE_spec (d : jsstring) (s : State) :
  messages (on_DELETE d s) = filter (fun m => id m <> d) (messages s)
  /\ (forall m, m ∈ messages (on_DELETE d s) <-> m ∈ messages s /\ id m <> d)
  /\ messages (on_DELETE d s) `sublist_of` messages s
  /\ newMessage (on_DELETE d s) = newMessage s
  /\ replyingTo (on_DELETE d s) = replyingTo s
  /\ isLoading (on_DELETE d s) = isLoading s
  /\ theme (on_DELETE d s) = theme s.
Proof.
  unfold on_DELETE, delete_update. rewrite messages_setMessages.
  split_and!; try done.
  - intros m. rewrite list_elem_of_filter. tauto.
  - apply sublist_filter.
Qed.

(** C6. When a [DELETE] removes the row with key [d], the handler of every
    connected client drops from its list the messages with id [d] and
    nothing else (the rest stays, in order, and so does the rest of the
    state); in the store the row [d] is gone, every remaining row that
    referred to [d] has [reply_to] NULL and is otherwise as it was, and no
    remaining row refers to [d]. *)
Theorem delete_propagates (cond : jsstring * Row -> Prop)
    `{!forall x, Decision (cond x)}
    (tbl : Table) (d : jsstring) (clients : list State) :
  d ∈ deleted_keys cond tbl ->
  Forall2 (fun s s' =>
             messages s' = filter (fun m => id m <> d) (messages s)
             /\ (forall m, m ∈ messages s' <-> m ∈ messages s /\ id m <> d)
             /\ newMessage s' = newMessage s
             /\ replyingTo s' = replyingTo s
             /\ isLoading s' = isLoading s)
          clients (broadcast_DELETE d clients)
  /\ delete_where cond tbl !! d = None
  /\ (forall i r, tbl !! i = Some r -> ~ cond (i, r) ->
        row_reply_to r = Some d ->
        delete_where cond tbl !! i
        = Some {| row_content := row_content r;
                  row_created_at := row_created_at r;
                  row_reply_to := None |})
  /\ (forall i r, delete_where cond tbl !! i = Some r ->
        row_reply_to r <> Some d).
Proof.
  intros Hd. split_and!.
  - unfold broadcast_DELETE. apply Forall2_fmap_r, Forall_Forall2_diag.
    apply Forall_forall. intros s _.
    destruct (on_DELETE_spec d s) as (H1 & H2 & _ & H3 & H4 & H5 & _). done.
  - rewrite lookup_delete_where.
    apply elem_of_deleted_keys in Hd as (r & -> & Hc).
    by destruct (decide (cond (d, r))).
  - intros i r Hi Hkeep Href. rewrite lookup_delete_where, Hi.
    destruct (decide (cond (i, r))); [done |].
    unfold set_null. rewrite Href.
    by destruct (decide (d ∈ deleted_keys cond tbl)).
  - intros i r. rewrite lookup_delete_where.
    destruct (tbl !! i) as [r0 |]; [| done].
    destruct (decide (cond (i, r0))); [done |].
    intros [= <-]. unfold set_null.
    destruct (row_reply_to r0) as [t |] eqn:Et; [| by rewrite Et].
    destruct (decide (t ∈ deleted_keys cond tbl)) as [Hin | Hout];
      cbn [row_reply_to]; [done |].
    rewrite Et. intros [= ->]. done.
Qed.

Lemma delete_propagates_witness :
  messages <$> broadcast_DELETE (js "u1") [sample_client; initial_state]
  = [ [ {| id := js "u2"; content := js "b"; created_at := 150000;
           reply_to := Some (js "u1") |} ]; [] ]
  /\ delete_old_messages 200000 sample_table !! js "u1" = None
  /\ delete_old_messages 200000 sample_table !! js "u2"
     = Some {| row_content := js "b"; row_created_at := Some 150000;
               row_reply_to := None |}.
Proof.
  assert (js "u1" ∈ deleted_keys (older_than_two_minutes 200000) sample_table)
    as Hd.
  { apply elem_of_deleted_keys. eexists. split; [by vm_compute |].
    vm_compute. reflexivity. }
  destruct (delete_propagates (older_than_two_minutes 200000) sample_table
              (js "u1") [sample_client; initial_state] Hd)
    as (_ & Hgone & Hnull & _).
  split_and!.
  - by vm_compute.
  - exact Hgone.
  - apply (Hnull (js "u2")
             {| row_content := js "b"; row_created_at := Some 150000;
                row_reply_to := Some (js "u1") |}).
    + by vm_compute.
    + vm_compute. intros H. discriminate H.
    + reflexivity.
Defined.

(** ** C5: the initial fetch *)

Global Instance newer_first_trans : Transitive newer_first.
Proof. intros a b c. unfold newer_first. lia. Qed.

Global Instance newer_first_total : Total newer_first.
Proof. intros a b. unfold newer_first. lia. Qed.

(** The rows a query selects, as messages, before ordering and limit. *)
Lemma elem_of_selected (since : Z) (tbl : Table) (m : Message) :
  m ∈ to_message <$> filter (created_since since) (map_to_list tbl)
  <-> exists r, tbl !! id m = Some r
                /\ row_created_at r = Some (created_at m)
                /\ since <= created_at m
                /\ content m = row_content r
                /\ reply_to m = row_reply_to r.
Proof.
  rewrite list_elem_of_fmap. split.
  - intros ([i r] & -> & [Hc Hin]%list_elem_of_filter).
    apply elem_of_map_to_list in Hin. exists r.
    unfold created_since, to_message in *. cbn [fst snd] in *.
    cbn [id content created_at reply_to].
    destruct (row_created_at r) as [t |]; [done | by destruct Hc].
  - intros (r & Hr & Ht & Hs & Hcont & Hrep). exists (id m, r). split.
    + unfold to_message. cbn [fst snd]. rewrite Ht. cbn [default].
      destruct m. cbn in *. by subst.
    + apply list_elem_of_filter. split; [| by apply elem_of_map_to_list].
      unfold created_since. cbn [snd]. by rewrite Ht.
Qed.

Lemma selected_ids_NoDup (since : Z) (tbl : Table) :
  NoDup (id <$> (to_message <$> filter (created_since since) (map_to_list tbl))).
Proof.
  rewrite <- list_fmap_compose.
  change (id ∘ to_message) with (@fst jsstring Row).
  apply (sublist_NoDup _ ((map_to_list tbl).*1)).
  - apply NoDup_fst_map_to_list.
  - apply fmap_sublist, sublist_filter.
Qed.

Lemma select_messages_take_drop (q : SelectQuery) (tbl : Table) :
  exists rest,
    select_messages q tbl ++ rest
    = merge_sort newer_first
        (to_message <$> filter (created_since (gte_created_at q)) (map_to_list tbl))
    /\ (rest <> [] -> length (select_messages q tbl) = limit q).
Proof.
  unfold select_messages.
  set (L := merge_sort _ _).
  exists (drop (limit q) L). split; [apply take_drop |].
  intros Hrest. rewrite length_take.
  destruct (decide (limit q <= length L)%nat) as [Hle | Hgt]; [lia |].
  destruct Hrest. apply drop_ge. lia.
Qed.

(** C5. The query built by [fetchMessages] at time [now] yields at most 100
    messages, each a row of the table with [created_at] at or after [now]
    minus two minutes, ordered by [created_at] descending, no row twice; a
    qualifying row is left out only when 100 rows are returned, none of them
    older than it. On success the local list becomes exactly this result; on
    an error the state is left as it was. *)
Theorem fetchMessages_spec (now : Z) (tbl : Table) (s : State) :
  let result := select_messages (fetchMessages now) tbl in
  messages (fetch_from now tbl s) = result
  /\ (length result <= 100)%nat
  /\ Forall (fun m => now - two_minutes <= created_at m) result
  /\ StronglySorted (fun a b => created_at b <= created_at a) result
  /\ (forall m, m ∈ result ->
        exists r, tbl !! id m = Some r
                  /\ row_created_at r = Some (created_at m)
                  /\ content m = row_content r
                  /\ reply_to m = row_reply_to r)
  /\ NoDup (id <$> result)
  /\ (forall i r t, tbl !! i = Some r -> row_created_at r = Some t ->
        now - two_minutes <= t -> to_message (i, r) ∉ result ->
        length result = 100%nat /\ Forall (fun m => t <= created_at m) result)
  /\ (forall data,
        fetchMessages_settled {| sel_data := Some data; sel_error := None |} s
        = setMessages (fun _ => data) s)
  /\ (forall data err,
        fetchMessages_settled {| sel_data := data; sel_error := Some err |} s
        = s).
Proof.
  intros result.
  destruct (select_messages_take_drop (fetchMessages now) tbl)
    as (rest & Hsplit & Hfull).
  fold result in Hsplit, Hfull.
  change (gte_created_at (fetchMessages now)) with (now - two_minutes) in Hsplit.
  set (sel := to_message <$> filter (created_since (now - two_minutes))
                               (map_to_list tbl)) in Hsplit.
  assert (result ++ rest ≡ₚ sel) as Hperm
    by (rewrite Hsplit; apply merge_sort_Permutation).
  assert (StronglySorted newer_first (result ++ rest)) as Hsorted
    by (rewrite Hsplit; apply StronglySorted_merge_sort; apply _).
  assert (forall m, m ∈ result -> m ∈ sel) as Hsub.
  { intros m Hm. rewrite <- Hperm. apply elem_of_app. by left. }
  split_and!.
  - reflexivity.
  - unfold result, select_messages. rewrite length_take.
    change (limit (fetchMessages now)) with 100%nat. lia.
  - apply Forall_forall. intros m Hm.
    apply Hsub, elem_of_selected in Hm as (r & _ & _ & Hs & _). done.
  - by apply StronglySorted_app_1_l in Hsorted.
  - intros m Hm.
    apply Hsub, elem_of_selected in Hm as (r & H1 & H2 & _ & H3 & H4). eauto.
  - assert (NoDup (id <$> (result ++ rest))) as Hnd.
    { rewrite Hperm. apply selected_ids_NoDup. }
    rewrite fmap_app in Hnd. by apply NoDup_app in Hnd as [Hnd _].
  - intros i r t Hi Ht Hs Hout.
    assert (to_message (i, r) ∈ sel) as Hin.
    { apply elem_of_selected. exists r. unfold to_message. cbn.
      rewrite Ht. done. }
    rewrite <- Hperm, elem_of_app in Hin. destruct Hin as [Hin | Hin]; [done |].
    split.
    + apply Hfull. intros ->. by apply not_elem_of_nil in Hin.
    + apply Forall_forall. intros m Hm.
      pose proof (StronglySorted_app_1_elem_of _ _ _ _ _ Hsorted Hm Hin) as Hle.
      unfold newer_first, to_message in Hle. cbn in Hle. by rewrite Ht in Hle.
  - done.
  - intros data err. unfold fetchMessages_settled. cbn. by destruct data.
Qed.

(** The fetch on [sample_table] at two times: at 200000 only the reply is
    recent enough; at 100000 both dated rows are, newest first. The row
    without a date is never selected. *)
Example fetch_sample :
  id <$> messages (fetch_from 200000 sample_table initial_state) = [js "u2"]
  /\ id <$> messages (fetch_from 100000 sample_table initial_state)
     = [js "u2"; js "u1"].
Proof. by vm_compute. Qed.

(** * Further properties of the component and the store *)

(** ** Time labels *)

Lemma Math_floor_quotient (a : Z) (b : positive) :
  Math_floor (inject_Z a / inject_Z (Zpos b)) = a / Zpos b.
Proof.
  unfold Math_floor, Qfloor, Qdiv, Qmult, Qinv, inject_Z. cbn.
  by rewrite Z.mul_1_r.
Qed.

(** The label as a function of the age [now - timestamp] in milliseconds. *)
Lemma formatTime_age (now t : Z) :
  formatTime now t
  = if decide (two_minutes <= now - t) then js "expiring..."
    else if decide (60 * 1000 <= now - t) then js "1m ago"
    else if decide (1000 <= now - t)
         then number_to_string ((now - t) / 1000) ++ js "s ago"
    else js "just now".
Proof.
  unfold formatTime, two_minutes. rewrite !Math_floor_quotient.
  set (d := now - t).
  destruct (decide (2 <= d / 1000 / 60)) as [Hm | Hm];
    destruct (decide (2 * 60 * 1000 <= d)) as [Hd | Hd];
    try (exfalso; Z.to_euclidean_division_equations; lia); [done |].
  destruct (decide (0 < d / 1000 / 60)) as [Hm1 | Hm1];
    destruct (decide (60 * 1000 <= d)) as [Hd1 | Hd1];
    try (exfalso; Z.to_euclidean_division_equations; lia).
  - assert (d / 1000 / 60 = 1) as -> by (Z.to_euclidean_division_equations; lia).
    reflexivity.
  - destruct (decide (0 < d / 1000)) as [Hs | Hs];
      destruct (decide (1000 <= d)) as [Hd2 | Hd2];
      try (exfalso; Z.to_euclidean_division_equations; lia); done.
Qed.

(** A label counting seconds is none of the three fixed labels: read from
    the end, it differs from each within five characters. *)
Lemma seconds_label_distinct (x : jsstring) :
  x ++ js "s ago" <> js "expiring..."
  /\ x ++ js "s ago" <> js "1m ago"
  /\ x ++ js "s ago" <> js "just now".
Proof.
  split_and!; intros H; apply (f_equal reverse) in H;
    rewrite reverse_app in H; by vm_compute in H.
Qed.

(** X1. [formatTime] by age: under one second (future timestamps included)
    the label is "just now"; from one second to under a minute it counts
    whole seconds; from one minute to under two it is "1m ago", the only
    minute label there is; from two minutes on it is "expiring...". *)
Theorem formatTime_cases (now t : Z) :
  (now - t < 1000 <-> formatTime now t = js "just now")
  /\ (1000 <= now - t < 60 * 1000 <->
      exists n, 1 <= n <= 59
                /\ formatTime now t = number_to_string n ++ js "s ago")
  /\ (1000 <= now - t < 60 * 1000 ->
      formatTime now t = number_to_string ((now - t) / 1000) ++ js "s ago")
  /\ (60 * 1000 <= now - t < 2 * 60 * 1000 <-> formatTime now t = js "1m ago")
  /\ (2 * 60 * 1000 <= now - t <-> formatTime now t = js "expiring...").
Proof.
  rewrite formatTime_age. unfold two_minutes.
  assert (forall n, js "expiring..." <> number_to_string n ++ js "s ago"
                    /\ js "1m ago" <> number_to_string n ++ js "s ago"
                    /\ js "just now" <> number_to_string n ++ js "s ago") as Hsec.
  { intros n.
    destruct (seconds_label_distinct (number_to_string n)) as (? & ? & ?).
    split_and!; congruence. }
  assert (js "expiring..." <> js "just now" /\ js "expiring..." <> js "1m ago"
          /\ js "1m ago" <> js "just now") as (Hej & Hem & Hmj)
    by (split_and!; by vm_compute).
  destruct (decide (2 * 60 * 1000 <= now - t)) as [H2 | H2];
    [| destruct (decide (60 * 1000 <= now - t)) as [H1 | H1];
       [| destruct (decide (1000 <= now - t)) as [H0 | H0]]].
  - split_and!.
    + split; [lia | done].
    + split; [lia |]. intros (n & _ & Hn). by destruct (Hsec n) as (? & _).
    + lia.
    + split; [lia | done].
    + done.
  - split_and!.
    + split; [lia |]. intros Hn. by destruct Hmj.
    + split; [lia |]. intros (n & _ & Hn). by destruct (Hsec n) as (_ & ? & _).
    + lia.
    + split; [done | lia].
    + split; [lia |]. intros Hn. by destruct Hem.
  - pose proof (Hsec ((now - t) / 1000)) as (Hx1 & Hx2 & Hx3).
    split_and!.
    + split; [lia |]. intros Hn. by destruct Hx3.
    + split; [| lia]. intros _. exists ((now - t) / 1000).
      split; [Z.to_euclidean_division_equations; lia | done].
    + done.
    + split; [lia |]. intros Hn. by destruct Hx2.
    + split; [lia |]. intros Hn. by destruct Hx1.
  - split_and!.
    + split; [done | lia].
    + split; [lia |]. intros (n & _ & Hn). by destruct (Hsec n) as (_ & _ & ?).
    + lia.
    + split; [lia |]. intros Hn. by destruct Hmj.
    + split; [lia |]. intros Hn. by destruct Hej.
Qed.

Lemma formatTime_expiring_iff (now t : Z) :
  formatTime now t = js "expiring..." <-> two_minutes <= now - t.
Proof.
  rewrite formatTime_age.
  destruct (decide (two_minutes <= now - t)) as [H2 | H2]; [done |].
  split; [| done]. intros H. destruct H2.
  destruct (decide (60 * 1000 <= now - t)); [by vm_compute in H |].
  destruct (decide (1000 <= now - t)); [| by vm_compute in H].
  by destruct (seconds_label_distinct (number_to_string ((now - t) / 1000)))
    as (? & _).
Qed.

Lemma formatTime_raw_time (now t : Z) :
  formatTime_raw now (Some t) = formatTime now t.
Proof. reflexivity. Qed.

Lemma formatTime_raw_NaN (now : Z) : formatTime_raw now None = js "just now".
Proof. reflexivity. Qed.

(** On dates that have a time value the two updaters are the same. *)
Lemma keep_unexpired_raw_with_time (now : Z) (l : list Message) :
  keep_unexpired_raw now (with_time <$> l) = with_time <$> keep_unexpired now l.
Proof.
  unfold keep_unexpired_raw, keep_unexpired.
  induction l as [| m l IH]; [done |].
  rewrite fmap_cons, !filter_cons, IH. cbn [with_time raw_time fmap option_fmap
    option_map number_lt].
  by destruct (decide (diffMinutes now (created_at m) < inject_Z 2)%Q).
Qed.

(** X2. The label and the expiry tick. At any clock reading the tick keeps
    exactly the listed messages whose [created_at] has a time value and
    whose label is not "expiring...". A message whose [created_at] is an
    Invalid Date is removed by every tick although its label is
    "just now". On a list of messages whose dates all have time values,
    the tick of the component's state keeps exactly those not labelled
    "expiring...". *)
Theorem expiring_label_marks_expired (now : Z) :
  (forall (l : list RawMessage) (m : RawMessage),
     m ∈ keep_unexpired_raw now l
     <-> m ∈ l /\ raw_time m <> None
         /\ formatTime_raw now (raw_time m) <> js "expiring...")
  /\ (forall (l : list RawMessage) (m : RawMessage),
        raw_time m = None ->
        (m ∉ keep_unexpired_raw now l)
        /\ formatTime_raw now (raw_time m) = js "just now")
  /\ (forall (s : State) (m : Message),
        m ∈ messages (removeExpiredMessages now s)
        <-> m ∈ messages s /\ formatTime now (created_at m) <> js "expiring...")
  /\ (forall l : list Message,
        keep_unexpired_raw now (with_time <$> l)
        = with_time <$> keep_unexpired now l).
Proof.
  assert (forall (l : list RawMessage) (m : RawMessage),
            m ∈ keep_unexpired_raw now l
            <-> m ∈ l /\ raw_time m <> None
                /\ formatTime_raw now (raw_time m) <> js "expiring...") as Hraw.
  { intros l m. unfold keep_unexpired_raw. rewrite list_elem_of_filter.
    destruct (raw_time m) as [t |]; cbn [fmap option_fmap option_map number_lt].
    - rewrite formatTime_raw_time, formatTime_expiring_iff, diffMinutes_lt_2.
      split; [intros [H1 H2] | intros (H1 & _ & H2)]; split_and!; try done; lia.
    - split; [by intros [[] _] | by intros (_ & Hn & _)]. }
  split_and!.
  - exact Hraw.
  - intros l m Hnan. rewrite Hnan. split; [| apply formatTime_raw_NaN].
    intros (_ & Hsome & _)%Hraw. by rewrite Hnan in Hsome.
  - intros s m. unfold removeExpiredMessages.
    rewrite messages_setMessages, keep_unexpired_filter, list_elem_of_filter.
    rewrite formatTime_expiring_iff.
    split; intros [H1 H2]; split; try done; lia.
  - apply keep_unexpired_raw_with_time.
Qed.

(** A row dated ['infinity'] next to a fresh one: the tick drops the first,
    which [formatTime] labels "just now". *)
Example invalid_date_sample :
  let odd := {| raw_id := js "u5"; raw_content := js "x"; raw_time := None;
                raw_reply_to := None |} in
  let fresh := {| raw_id := js "u6"; raw_content := js "y";
                  raw_time := Some 1000; raw_reply_to := None |} in
  keep_unexpired_raw 2000 [odd; fresh] = [fresh]
  /\ formatTime_raw 2000 (raw_time odd) = js "just now"
  /\ formatTime_raw 2000 (raw_time fresh) = js "1s ago".
Proof. by vm_compute. Qed.

(** ** Updaters compose *)

Lemma setMessages_setMessages f g s :
  setMessages f (setMessages g s) = setMessages (fun l => f (g l)) s.
Proof. reflexivity. Qed.

Lemma setMessages_ext f g s :
  f (messages s) = g (messages s) -> setMessages f s = setMessages g s.
Proof. unfold setMessages. by intros ->. Qed.

(** X3. Expiry ticks compose: a tick at [t1] followed by a tick at [t2]
    leaves the state a single tick at the later of the two would leave; in
    particular a repeated tick changes nothing. *)
Theorem removeExpiredMessages_compose (t1 t2 : Z) (s : State) :
  removeExpiredMessages t2 (removeExpiredMessages t1 s)
  = removeExpiredMessages (Z.max t1 t2) s
  /\ removeExpiredMessages t1 (removeExpiredMessages t1 s)
     = removeExpiredMessages t1 s.
Proof.
  unfold removeExpiredMessages. rewrite !setMessages_setMessages.
  split; apply setMessages_ext; rewrite !keep_unexpired_filter;
    rewrite list_filter_filter; apply list_filter_iff; intros m; lia.
Qed.

(** On a list ordered newest first, an expired message is followed by
    expired messages only. *)
Lemma keep_unexpired_all_older (now : Z) (m : Message) (l : list Message) :
  Forall (newer_first m) l -> two_minutes <= now - created_at m ->
  keep_unexpired now l = [].
Proof.
  rewrite keep_unexpired_filter. intros Hall Hold.
  induction Hall as [| x l Hx _ IH]; [done |].
  unfold newer_first in Hx. rewrite filter_cons_False by lia. exact IH.
Qed.

(** X4. On a list whose messages all have a time value and stand in
    descending order of it, the expiry tick removes a tail: what it keeps
    is an initial segment of the list. (A message whose date is an Invalid
    Date is removed wherever it stands, see X2.) *)
Theorem removeExpiredMessages_drops_tail (now : Z) (s : State) :
  StronglySorted newer_first (messages s) ->
  messages (removeExpiredMessages now s)
  = take (length (messages (removeExpiredMessages now s))) (messages s).
Proof.
  unfold removeExpiredMessages. rewrite messages_setMessages.
  induction 1 as [| m l Hsorted IH Hall]; [done |].
  destruct (decide (now - created_at m < two_minutes)) as [Hlive | Hold].
  - assert (keep_unexpired now (m :: l) = m :: keep_unexpired now l) as ->.
    { rewrite !keep_unexpired_filter. by rewrite filter_cons_True. }
    cbn [length take]. by rewrite <- IH.
  - assert (keep_unexpired now (m :: l) = []) as ->; [| done].
    rewrite keep_unexpired_filter, filter_cons_False by done.
    rewrite <- keep_unexpired_filter.
    apply (keep_unexpired_all_older now m); [done | lia].
Qed.

Lemma removeExpiredMessages_drops_tail_witness :
  messages (removeExpiredMessages 200000 sample_client)
  = take 1 (messages sample_client).
Proof.
  apply (removeExpiredMessages_drops_tail 200000 sample_client).
  repeat constructor; unfold newer_first; cbn; lia.
Defined.

(** ** Fetch, expiry and the life of a row *)

Lemma select_messages_elem (q : SelectQuery) (tbl : Table) (m : Message) :
  m ∈ select_messages q tbl ->
  m ∈ to_message <$> filter (created_since (gte_created_at q)) (map_to_list tbl).
Proof.
  intros Hm. destruct (select_messages_take_drop q tbl) as (rest & Hsplit & _).
  rewrite <- (merge_sort_Permutation newer_first), <- Hsplit.
  apply elem_of_app. by left.
Qed.

(** A qualifying row is returned unless the limit is reached by rows at least
    as new. *)
Lemma select_messages_complete (q : SelectQuery) (tbl : Table)
    (i : jsstring) (r : Row) (t : Z) :
  tbl !! i = Some r -> row_created_at r = Some t -> gte_created_at q <= t ->
  to_message (i, r) ∈ select_messages q tbl
  \/ (length (select_messages q tbl) = limit q
      /\ Forall (fun m => t <= created_at m) (select_messages q tbl)).
Proof.
  intros Hi Ht Hs.
  destruct (select_messages_take_drop q tbl) as (rest & Hsplit & Hfull).
  assert (to_message (i, r) ∈ select_messages q tbl ++ rest) as Hin.
  { rewrite Hsplit, merge_sort_Permutation. apply elem_of_selected.
    exists r. unfold to_message. cbn. rewrite Ht. done. }
  apply elem_of_app in Hin as [Hin | Hin]; [by left | right]. split.
  - apply Hfull. intros ->. by apply not_elem_of_nil in Hin.
  - assert (StronglySorted newer_first (select_messages q tbl ++ rest)) as Hsorted
      by (rewrite Hsplit; apply StronglySorted_merge_sort; apply _).
    apply Forall_forall. intros m Hm.
    pose proof (StronglySorted_app_1_elem_of _ _ _ _ _ Hsorted Hm Hin) as Hle.
    unfold newer_first, to_message in Hle. cbn in Hle. by rewrite Ht in Hle.
Qed.



(** A row dated exactly two minutes before the fetch is fetched, and the
    tick at that same reading drops it. *)
Example fetch_then_tick_sample :
  id <$> messages (fetch_from 121000 sample_table initial_state)
  = [js "u2"; js "u1"]
  /\ id <$> messages (removeExpiredMessages 121000
                        (fetch_from 121000 sample_table initial_state))
     = [js "u2"].
Proof. by vm_compute. Qed.

Lemma insert_message_ok (uuid : jsstring) (now : Z) (req : InsertRequest)
    (tbl tbl' : Table) (row : Message) :
  insert_message uuid now req tbl
  = (tbl', {| ins_data := Some row; ins_error := None |}) ->
  tbl !! uuid = None
  /\ tbl' = <[uuid := {| row_content := ins_content req;
                         row_created_at := Some now;
                         row_reply_to := ins_reply_to req |}]> tbl
  /\ row = {| id := uuid; content := ins_content req; created_at := now;
              reply_to := ins_reply_to req |}.
Proof.
  unfold insert_message.
  destruct (decide (is_Some (tbl !! uuid))) as [| Hnew]; [done |].
  destruct (references_ok tbl (ins_reply_to req)); [| done].
  intros [= <- <-]. split_and!; try done.
  by apply eq_None_not_Some.
Qed.

(** A purge leaves a row that is not yet two minutes old, with its content
    and date. *)
Lemma purge_keeps_recent (now : Z) (tbl : Table) (i : jsstring) (r : Row) (t : Z) :
  tbl !! i = Some r -> row_created_at r = Some t -> now <= t + 2 * 60 * 1000 ->
  exists r', delete_old_messages now tbl !! i = Some r'
             /\ row_content r' = row_content r
             /\ row_created_at r' = Some t.
Proof.
  intros Hi Ht Hnow. unfold delete_old_messages.
  rewrite lookup_delete_where, Hi.
  destruct (decide (older_than_two_minutes now (i, r))) as [Hold | _].
  - unfold older_than_two_minutes, two_minutes in Hold. cbn [snd] in Hold.
    rewrite Ht in Hold. lia.
  - eexists. split; [done |].
    destruct (set_null_columns (deleted_keys (older_than_two_minutes now) tbl) r)
      as [-> ->]. done.
Qed.

Lemma purges_keep_recent (times : list Z) (tbl : Table) (i : jsstring)
    (r : Row) (t : Z) :
  Forall (fun p => p <= t + 2 * 60 * 1000) times ->
  tbl !! i = Some r -> row_created_at r = Some t ->
  exists r', purges times tbl !! i = Some r'
             /\ row_content r' = row_content r
             /\ row_created_at r' = Some t.
Proof.
  unfold purges. intros Htimes. revert tbl r.
  induction Htimes as [| p times Hp _ IH]; intros tbl r Hi Ht; [eauto |].
  cbn [foldl].
  destruct (purge_keeps_recent p tbl i r t Hi Ht Hp) as (r1 & Hi1 & Hc1 & Ht1).
  destruct (IH _ r1 Hi1 Ht1) as (r' & Hi' & Hc' & Ht').
  exists r'. split_and!; [done | congruence | done].
Qed.

(** X6. Insert, then fetch. A row the store accepted at its time [now] is
    returned by a fetch whose window reaches back to [now], run on the
    table as the insert left it, unless that fetch returns 100 rows none of
    which is older than it. The same holds, for the row's id, content and
    date, on the table after any purges run no later than [now + 2 min]
    (a later purge deletes the row, see X7). *)
Theorem inserted_row_is_fetched (uuid : jsstring) (now now' : Z)
    (req : InsertRequest) (tbl tbl' : Table) (row : Message) (times : list Z) :
  insert_message uuid now req tbl
  = (tbl', {| ins_data := Some row; ins_error := None |}) ->
  now' - 2 * 60 * 1000 <= now ->
  Forall (fun p => p <= now + 2 * 60 * 1000) times ->
  (row ∈ select_messages (fetchMessages now') tbl'
   \/ (length (select_messages (fetchMessages now') tbl') = 100%nat
       /\ Forall (fun m => now <= created_at m)
                 (select_messages (fetchMessages now') tbl')))
  /\ ((exists m, m ∈ select_messages (fetchMessages now') (purges times tbl')
                 /\ id m = uuid /\ content m = content row
                 /\ created_at m = created_at row)
      \/ (length (select_messages (fetchMessages now') (purges times tbl'))
          = 100%nat
          /\ Forall (fun m => now <= created_at m)
                    (select_messages (fetchMessages now') (purges times tbl')))).
Proof.
  intros (_ & -> & ->)%insert_message_ok Hwindow Htimes.
  set (r := {| row_content := ins_content req; row_created_at := Some now;
               row_reply_to := ins_reply_to req |}).
  assert (<[uuid := r]> tbl !! uuid = Some r) as Hrow by apply lookup_insert_eq.
  split.
  - by apply (select_messages_complete (fetchMessages now') _ uuid r now).
  - destruct (purges_keep_recent times _ uuid r now Htimes Hrow eq_refl)
      as (r' & Hr' & Hc' & Ht').
    destruct (select_messages_complete (fetchMessages now') _ uuid r' now
                Hr' Ht' Hwindow) as [Hin | Hfull]; [left | by right].
    exists (to_message (uuid, r')). split; [done |].
    unfold to_message. cbn. by rewrite Hc', Ht'.
Qed.

Lemma inserted_row_is_fetched_witness :
  let req := {| ins_content := js "d"; ins_reply_to := Some (js "u2") |} in
  let tbl' := fst (insert_message (js "u4") 160000 req sample_table) in
  exists m, m ∈ select_messages (fetchMessages 200000)
                  (purges [200000; 280000] tbl')
            /\ id m = js "u4".
Proof.
  intros req tbl'.
  assert (insert_message (js "u4") 160000 req sample_table
          = (tbl', {| ins_data := Some {| id := js "u4"; content := js "d";
                                          created_at := 160000;
                                          reply_to := Some (js "u2") |};
                      ins_error := None |})) as Hins
    by (vm_compute; reflexivity).
  destruct (inserted_row_is_fetched (js "u4") 160000 200000 req sample_table
              tbl' _ [200000; 280000] Hins)
    as [_ [(m & Hm & Hid & _) | [Hlen _]]].
  - lia.
  - repeat constructor; lia.
  - exists m. split; [exact Hm | exact Hid].
  - vm_compute in Hlen. discriminate Hlen.
Defined.

(** X7. Insert, then purge. A row inserted at store time [now] is still in
    the table, with its content and date, after a purge at any time up to
    two minutes later, and is gone after a purge at any later time. *)
Theorem inserted_row_lifetime (uuid : jsstring) (now now' : Z)
    (req : InsertRequest) (tbl tbl' : Table) (row : Message) :
  insert_message uuid now req tbl
  = (tbl', {| ins_data := Some row; ins_error := None |}) ->
  (now' <= now + 2 * 60 * 1000 ->
   exists r, delete_old_messages now' tbl' !! uuid = Some r
             /\ row_content r = content row
             /\ row_created_at r = Some (created_at row))
  /\ (now + 2 * 60 * 1000 < now' ->
      delete_old_messages now' tbl' !! uuid = None).
Proof.
  intros (_ & -> & ->)%insert_message_ok.
  unfold delete_old_messages. rewrite lookup_delete_where, lookup_insert_eq.
  cbn [content created_at].
  destruct (decide (older_than_two_minutes now' _)) as [Hold | Hnew];
    unfold older_than_two_minutes, two_minutes in *; cbn [snd row_created_at] in *.
  - split; [lia | done].
  - split; [| lia]. intros _. eexists. split; [done |].
    apply set_null_columns.
Qed.

Lemma inserted_row_lifetime_witness :
  exists row tbl',
    insert_message (js "u4") 160000 {| ins_content := js "d";
                                       ins_reply_to := None |} sample_table
    = (tbl', {| ins_data := Some row; ins_error := None |})
    /\ is_Some (delete_old_messages 280000 tbl' !! js "u4")
    /\ delete_old_messages 280001 tbl' !! js "u4" = None.
Proof.
  do 2 eexists. split; [by vm_compute |].
  destruct (inserted_row_lifetime (js "u4") 160000 280000
              {| ins_content := js "d"; ins_reply_to := None |}
              sample_table _ _ eq_refl) as [Hlive _].
  destruct (inserted_row_lifetime (js "u4") 160000 280001
              {| ins_content := js "d"; ins_reply_to := None |}
              sample_table _ _ eq_refl) as [_ Hgone].
  split.
  - destruct Hlive as (r & Hr & _); [lia | by exists r].
  - apply Hgone. lia.
Defined.

(** X8. A row whose [created_at] is NULL is outside both conditions: no
    purge, at any time, deletes it, and no select on [created_at] returns
    it. *)
Theorem undated_row_immortal_and_unseen (tbl : Table) (i : jsstring) (r : Row) :
  tbl !! i = Some r -> row_created_at r = None ->
  (forall now, exists r', delete_old_messages now tbl !! i = Some r'
                          /\ row_content r' = row_content r
                          /\ row_created_at r' = None)
  /\ (forall q, i ∉ id <$> select_messages q tbl).
Proof.
  intros Hi Hnull. split.
  - intros now. unfold delete_old_messages.
    rewrite lookup_delete_where, Hi.
    destruct (decide (older_than_two_minutes now (i, r))) as [Hold | _].
    + unfold older_than_two_minutes in Hold. cbn in Hold. by rewrite Hnull in Hold.
    + eexists. split; [done |].
      destruct (set_null_columns (deleted_keys (older_than_two_minutes now) tbl) r)
        as [-> ->]. done.
  - intros q (m & -> & Hm)%list_elem_of_fmap.
    apply select_messages_elem, elem_of_selected in Hm as (r' & Hr' & Ht & _).
    congruence.
Qed.

Lemma undated_row_immortal_and_unseen_witness :
  is_Some (delete_old_messages 10000000 sample_table !! js "u3")
  /\ js "u3" ∉ id <$> select_messages (fetchMessages 0) sample_table.
Proof.
  destruct (undated_row_immortal_and_unseen sample_table (js "u3")
              {| row_content := js "c"; row_created_at := None;
                 row_reply_to := None |}) as [Hkept Hunseen].
  - by vm_compute.
  - reflexivity.
  - split; [| apply Hunseen].
    destruct (Hkept 10000000) as (r' & Hr' & _). by exists r'.
Defined.

(** ** Referential integrity *)

Lemma dom_delete_where (cond : jsstring * Row -> Prop)
    `{!forall x, Decision (cond x)} (tbl : Table) :
  dom (delete_where cond tbl) = dom tbl ∖ deleted_keys cond tbl.
Proof.
  apply set_eq. intros i.
  rewrite elem_of_difference, !elem_of_dom, elem_of_deleted_keys.
  rewrite lookup_delete_where. unfold is_Some.
  destruct (tbl !! i) as [r |] eqn:E.
  - destruct (decide (cond (i, r))) as [Hc | Hc].
    + split; [by intros [? ?] |]. intros [_ Hno]. destruct Hno. eauto.
    + split; [| eauto]. intros _. split; [eauto |].
      by intros (r' & [= <-] & Hc').
  - split; [by intros [? ?] | by intros [[? ?] _]].
Qed.

(** X9. The foreign key is kept. If every non-NULL [reply_to] names a row,
    it still does after any [DELETE ... WHERE] (the purge included), thanks
    to [ON DELETE SET NULL], and after any insert, accepted or refused. *)
Theorem references_closed_preserved (tbl : Table) :
  references_closed tbl ->
  (forall (cond : jsstring * Row -> Prop) `{!forall x, Decision (cond x)},
     references_closed (delete_where cond tbl))
  /\ (forall now, references_closed (delete_old_messages now tbl))
  /\ (forall uuid now req,
        references_closed (fst (insert_message uuid now req tbl))).
Proof.
  intros Hclosed.
  assert (forall (cond : jsstring * Row -> Prop) `{!forall x, Decision (cond x)},
            references_closed (delete_where cond tbl)) as Hdel.
  { intros cond Hdec i r target. rewrite !lookup_delete_where.
    destruct (tbl !! i) as [r0 |] eqn:Ei; [| done].
    destruct (decide (cond (i, r0))) as [| Hkeep]; [done |].
    intros [= <-]. unfold set_null.
    destruct (row_reply_to r0) as [t |] eqn:Et; [| by rewrite Et].
    destruct (decide (t ∈ deleted_keys cond tbl)) as [Hin | Hout];
      cbn [row_reply_to]; [done |].
    rewrite Et. intros [= <-].
    destruct (Hclosed i r0 t Ei Et) as [rt Hrt]. rewrite Hrt.
    destruct (decide (cond (t, rt))) as [Hc | _]; [| eauto].
    destruct Hout. apply elem_of_deleted_keys. eauto. }
  split_and!; [exact Hdel | intros now; apply Hdel |].
  intros uuid now req. unfold insert_message.
  destruct (decide (is_Some (tbl !! uuid))) as [| Hnew]; [done |].
  destruct (references_ok tbl (ins_reply_to req)) eqn:Hok; [| done].
  cbn [fst]. intros i r target Hi Hr.
  assert (is_Some (tbl !! target)) as [rt Hrt].
  { apply lookup_insert_Some in Hi as [[<- <-] | [_ Hi]].
    - cbn in Hr. rewrite Hr in Hok. cbn in Hok.
      by apply bool_decide_eq_true in Hok.
    - by eapply Hclosed. }
  destruct (decide (uuid = target)) as [<- | Hne].
  - rewrite lookup_insert_eq. eauto.
  - rewrite lookup_insert_ne by done. eauto.
Qed.

Lemma sample_table_closed : references_closed sample_table.
Proof.
  intros i r target Hi Hr. unfold sample_table in Hi.
  apply lookup_insert_Some in Hi as [[<- <-] | [_ Hi]]; [done |].
  apply lookup_insert_Some in Hi as [[<- <-] | [_ Hi]].
  - injection Hr as <-. eexists. by vm_compute.
  - apply lookup_insert_Some in Hi as [[<- <-] | [_ Hi]]; [done |].
    by rewrite lookup_empty in Hi.
Defined.

Lemma references_closed_preserved_witness :
  references_closed (delete_old_messages 200000 sample_table)
  /\ references_closed
       (fst (insert_message (js "u4") 160000
               {| ins_content := js "d"; ins_reply_to := Some (js "u2") |}
               sample_table)).
Proof.
  destruct (references_closed_preserved sample_table sample_table_closed)
    as (_ & Hpurge & Hinsert).
  split; [apply Hpurge | apply Hinsert].
Defined.

(** ** Realtime handlers *)

Lemma filter_id_ne_fresh_all (l : list Message) :
  filter (fun m => id m ∉ @nil jsstring) l = l.
Proof.
  induction l as [| m l IH]; [done |].
  rewrite filter_cons_True by apply not_elem_of_nil. by rewrite IH.
Qed.

Lemma on_DELETEs_messages (olds : list jsstring) (s : State) :
  messages (on_DELETEs olds s)
  = filter (fun m => id m ∉ olds) (messages s).
Proof.
  unfold on_DELETEs. revert s.
  induction olds as [| d olds IH]; intros s; cbn [foldl].
  - symmetry. apply filter_id_ne_fresh_all.
  - rewrite IH. unfold on_DELETE, delete_update. rewrite messages_setMessages.
    rewrite list_filter_filter. apply list_filter_iff. intros m.
    rewrite not_elem_of_cons. tauto.
Qed.

(** X10. A client that lists only rows of the table still does after a
    [DELETE] and its notifications: once the DELETE handler has run for
    the deleted keys, in whatever order and however often, the list is the
    old one without the deleted rows, and every listed id is a key of the
    table as it is now. *)
Theorem delete_notifications_keep_client_in_table
    (cond : jsstring * Row -> Prop) `{!forall x, Decision (cond x)}
    (tbl : Table) (olds : list jsstring) (s : State) :
  (forall d, d ∈ olds <-> d ∈ deleted_keys cond tbl) ->
  (forall m, m ∈ messages s -> id m ∈ dom tbl) ->
  messages (on_DELETEs olds s)
  = filter (fun m => id m ∉ deleted_keys cond tbl) (messages s)
  /\ (forall m, m ∈ messages (on_DELETEs olds s) ->
                id m ∈ dom (delete_where cond tbl)).
Proof.
  intros Holds Hsub. rewrite on_DELETEs_messages.
  assert (filter (fun m => id m ∉ olds) (messages s)
          = filter (fun m => id m ∉ deleted_keys cond tbl) (messages s)) as ->.
  { apply list_filter_iff. intros m. by rewrite Holds. }
  split; [done |]. intros m [Hm Hin]%list_elem_of_filter.
  rewrite dom_delete_where. apply elem_of_difference. auto.
Qed.

Lemma delete_notifications_keep_client_in_table_witness :
  id <$> messages (on_DELETEs [js "u1"; js "u1"] sample_client) = [js "u2"]
  /\ forall m, m ∈ messages (on_DELETEs [js "u1"; js "u1"] sample_client) ->
               id m ∈ dom (delete_old_messages 200000 sample_table).
Proof.
  destruct (delete_notifications_keep_client_in_table
              (older_than_two_minutes 200000) sample_table
              [js "u1"; js "u1"] sample_client) as [Hlist Hsub].
  - intros d. rewrite elem_of_deleted_keys. split.
    + intros Hd. assert (d = js "u1") as ->.
      { apply elem_of_cons in Hd as [Hd | Hd]; [done |].
        by apply list_elem_of_singleton in Hd. }
      eexists. split; [by vm_compute | by vm_compute].
    + intros (r & Hd & Hold). unfold sample_table in Hd.
      apply lookup_insert_Some in Hd as [[<- <-] | [_ Hd]];
        [apply list_elem_of_here |].
      apply lookup_insert_Some in Hd as [[<- <-] | [_ Hd]];
        [by vm_compute in Hold |].
      apply lookup_insert_Some in Hd as [[<- <-] | [_ Hd]];
        [by vm_compute in Hold | by rewrite lookup_empty in Hd].
  - intros m Hm. apply elem_of_dom.
    assert (m ∈ messages sample_client) as Hm' by done.
    cbn in Hm'. apply elem_of_cons in Hm' as [-> | Hm'].
    + eexists. by vm_compute.
    + apply list_elem_of_singleton in Hm' as ->. eexists. by vm_compute.
  - split; [| exact Hsub]. rewrite Hlist. by vm_compute.
Defined.

(** X11. The removing handlers commute. Two DELETE notifications may be
    handled in either order, a DELETE notification and an expiry tick may
    be handled in either order, and a repeated DELETE notification changes
    nothing. *)
Theorem removing_handlers_commute (d1 d2 : jsstring) (t : Z) (s : State) :
  on_DELETE d1 (on_DELETE d2 s) = on_DELETE d2 (on_DELETE d1 s)
  /\ on_DELETE d1 (removeExpiredMessages t s)
     = removeExpiredMessages t (on_DELETE d1 s)
  /\ on_DELETE d1 (on_DELETE d1 s) = on_DELETE d1 s.
Proof.
  unfold on_DELETE, removeExpiredMessages, delete_update.
  rewrite !setMessages_setMessages.
  split_and!; apply setMessages_ext; rewrite ?keep_unexpired_filter;
    rewrite !list_filter_filter; apply list_filter_iff; intros m; tauto.
Qed.


(** ** Replies whose target is gone *)




(** ** A confirmed send *)

(** X14. A successful response only substitutes. The continuation keeps
    the length of the list and every position: an entry under the temporary
    id becomes the confirmed row, any other entry stays. If the optimistic
    entry is no longer listed (a fetch or a tick replaced the list in
    between), the list is left as it is and the confirmed row is not added.
    Input text and reply target are not touched. *)
Theorem send_success_substitutes (k : SendPending) (row : Message) (cur : State) :
  let s2 := handleSendMessage_settled k
              {| ins_data := Some row; ins_error := None |} cur in
  length (messages s2) = length (messages cur)
  /\ (forall i m, messages cur !! i = Some m ->
        messages s2 !! i
        = Some (if decide (id m = id (optimisticMessage k)) then row else m))
  /\ (id (optimisticMessage k) ∉ id <$> messages cur ->
      messages s2 = messages cur)
  /\ newMessage s2 = newMessage cur
  /\ replyingTo s2 = replyingTo cur
  /\ isLoading s2 = false.
Proof.
  intros s2. subst s2. unfold handleSendMessage_settled.
  cbn [ins_error ins_data]. read_messages. split_and!; try done.
  - apply length_fmap.
  - intros i m Hi. by rewrite list_lookup_fmap, Hi.
  - apply replace_optimistic_fresh.
Qed.

(** X15. What the sender sees is what the store keeps. The row an accepted
    insert returns has the content and the reply target of the optimistic
    entry; it differs from it in its id and its date only. *)
Theorem confirmed_row_matches_optimistic (clock_id clock_created : Z)
    (s s1 : State) (req : InsertRequest) (k : SendPending)
    (uuid : jsstring) (now : Z) (tbl tbl' : Table) (row : Message) :
  handleSendMessage clock_id clock_created s = (s1, Some (req, k)) ->
  insert_message uuid now req tbl
  = (tbl', {| ins_data := Some row; ins_error := None |}) ->
  content row = content (optimisticMessage k)
  /\ reply_to row = reply_to (optimisticMessage k)
  /\ id row = uuid
  /\ created_at row = now
  /\ tbl' !! uuid = Some {| row_content := content (optimisticMessage k);
                            row_created_at := Some now;
                            row_reply_to := reply_to (optimisticMessage k) |}.
Proof.
  intros Hstart (_ & -> & ->)%insert_message_ok.
  unfold handleSendMessage in Hstart.
  destruct (negb (truthy (trim (newMessage s))) || isLoading s); [done |].
  injection Hstart as <- <- <-. cbn.
  split_and!; try done. by rewrite lookup_insert_eq.
Qed.

Lemma confirmed_row_matches_optimistic_witness :
  exists s1 req k tbl' row,
    handleSendMessage 1000 1000 sample_first = (s1, Some (req, k))
    /\ insert_message (js "u1") 1001 req ∅
       = (tbl', {| ins_data := Some row; ins_error := None |})
    /\ content row = js "hi" /\ reply_to row = None.
Proof.
  do 5 eexists. split; [by vm_compute |]. split; [by vm_compute |].
  edestruct (fun s1 req k tbl' row =>
               confirmed_row_matches_optimistic 1000 1000 sample_first s1 req k
                 (js "u1") 1001 ∅ tbl' row) as (Hc & Hr & _);
    [by vm_compute | by vm_compute |].
  split; [exact Hc | exact Hr].
Defined.

(** ** What [trim] returns *)

Lemma trimStart_decompose (x : jsstring) :
  exists pre, x = pre ++ trimStart x
              /\ Forall (fun c => is_whitespace c = true) pre.
Proof.
  induction x as [| c x (pre & Hx & Hpre)]; [by exists [] |].
  cbn [trimStart]. destruct (is_whitespace c) eqn:Hc.
  - exists (c :: pre). split; [by rewrite Hx at 1 | by constructor].
  - by exists [].
Qed.

Lemma trimEnd_decompose (y : jsstring) :
  exists post, y = trimEnd y ++ post
               /\ Forall (fun c => is_whitespace c = true) post.
Proof.
  unfold trimEnd.
  destruct (trimStart_decompose (reverse y)) as (pre & Hy & Hpre).
  exists (reverse pre). split; [| by apply Forall_reverse].
  rewrite <- reverse_app, <- Hy. by rewrite reverse_involutive.
Qed.

Lemma trimEnd_last (y r : jsstring) (c : N) :
  trimEnd y = r ++ [c] -> is_whitespace c = false.
Proof.
  unfold trimEnd. intros H. apply (f_equal reverse) in H.
  rewrite reverse_involutive, reverse_app in H. cbn in H.
  destruct (trimStart_head (reverse y)) as [H0 | (c' & r' & H1 & Hc)];
    congruence.
Qed.

Lemma trimEnd_head (c : N) (r : jsstring) :
  is_whitespace c = false -> exists r', trimEnd (c :: r) = c :: r'.
Proof.
  intros Hc. destruct (trimEnd_decompose (c :: r)) as (post & Hy & Hpost).
  destruct (trimEnd (c :: r)) as [| c' r'].
  - cbn in Hy. subst post. inversion Hpost; congruence.
  - injection Hy as <- _. by exists r'.
Qed.

Lemma trimEnd_fixed (r : jsstring) (c : N) :
  is_whitespace c = false -> trimEnd (r ++ [c]) = r ++ [c].
Proof.
  intros Hc. unfold trimEnd. rewrite reverse_app. cbn [reverse app].
  change (reverse [c]) with [c]. cbn [app trimStart]. rewrite Hc.
  by rewrite reverse_cons, reverse_involutive.
Qed.

(** [trim] returns the empty string or a string that begins and ends with
    a character that is not whitespace. *)
Lemma trim_shape (x : jsstring) :
  trim x = []
  \/ exists c r r' c', trim x = c :: r /\ trim x = r' ++ [c']
                       /\ is_whitespace c = false /\ is_whitespace c' = false.
Proof.
  unfold trim.
  destruct (trimStart_head x) as [-> | (c & r & Hx & Hc)]; [by left | right].
  rewrite Hx. destruct (trimEnd_head c r Hc) as (r1 & Hhead).
  destruct (last (trimEnd (c :: r))) as [c' |] eqn:Hlast.
  - apply last_Some in Hlast as [r' Hr']. exists c, r1, r', c'.
    split_and!; try done. by eapply trimEnd_last.
  - apply last_None in Hlast. congruence.
Qed.

Lemma trim_idempotent (x : jsstring) : trim (trim x) = trim x.
Proof.
  destruct (trim_shape x) as [-> | (c & r & r' & c' & H1 & H2 & Hc & Hc')];
    [done |].
  unfold trim at 1. rewrite H1. cbn [trimStart]. rewrite Hc.
  rewrite <- H1, H2. by apply trimEnd_fixed.
Qed.

(** X16. What is sent is never blank and never padded. The content of the
    insert request, which is also the content of the optimistic entry, is
    not empty, begins and ends with a character that is not whitespace, and
    is the input text with a whitespace-only prefix and a whitespace-only
    suffix cut off. *)
Theorem sent_content_is_trimmed (clock_id clock_created : Z)
    (s s1 : State) (req : InsertRequest) (k : SendPending) :
  handleSendMessage clock_id clock_created s = (s1, Some (req, k)) ->
  ins_content req <> []
  /\ content (optimisticMessage k) = ins_content req
  /\ (exists pre post,
        newMessage s = pre ++ ins_content req ++ post
        /\ Forall (fun c => is_whitespace c = true) pre
        /\ Forall (fun c => is_whitespace c = true) post)
  /\ (exists c r r' c',
        ins_content req = c :: r /\ ins_content req = r' ++ [c']
        /\ is_whitespace c = false /\ is_whitespace c' = false).
Proof.
  unfold handleSendMessage.
  destruct (negb (truthy (trim (newMessage s))) || isLoading s) eqn:G; [done |].
  apply orb_false_elim in G as [Htrue _]. apply negb_false_iff in Htrue.
  intros [= <- <- <-]. cbn [ins_content content optimisticMessage].
  assert (trim (newMessage s) <> []) as Hne
    by (intros H0; by rewrite H0 in Htrue).
  split_and!; try done.
  - unfold trim.
    destruct (trimStart_decompose (newMessage s)) as (pre & Hx & Hpre).
    destruct (trimEnd_decompose (trimStart (newMessage s))) as (post & Hy & Hpost).
    exists pre, post. split_and!; try done. by rewrite <- Hy.
  - by destruct (trim_shape (newMessage s)) as [H0 | H1].
Qed.

Lemma sent_content_is_trimmed_witness :
  exists s1 req k,
    handleSendMessage 1000 1000 sample_first = (s1, Some (req, k))
    /\ ins_content req <> []
    /\ content (optimisticMessage k) = ins_content req.
Proof.
  do 3 eexists. split; [by vm_compute |].
  edestruct (fun s1 req k =>
               sent_content_is_trimmed 1000 1000 sample_first s1 req k)
    as (Hne & Hc & _); [by vm_compute |].
  split; [exact Hne | exact Hc].
Defined.

(** ** The send button *)

(** X17. The send button follows the handler. It is disabled exactly when
    [handleSendMessage] would return at its guard. Once a send has started
    it is disabled, and so is the text area; after a failed insert it is
    enabled again, over the restored text; after a confirmed insert it is
    disabled as long as the input is empty. *)
Theorem send_button_follows_handler (clock_id clock_created : Z) (s : State) :
  (send_disabled s = true
   <-> snd (handleSendMessage clock_id clock_created s) = None)
  /\ (forall s1 req k,
        handleSendMessage clock_id clock_created s = (s1, Some (req, k)) ->
        send_disabled s1 = true /\ textarea_disabled s1 = true
        /\ (forall cur data err,
              send_disabled (handleSendMessage_settled k
                {| ins_data := data; ins_error := Some err |} cur) = false)
        /\ (forall cur row,
              newMessage cur = [] ->
              send_disabled (handleSendMessage_settled k
                {| ins_data := Some row; ins_error := None |} cur) = true
              /\ textarea_disabled (handleSendMessage_settled k
                   {| ins_data := Some row; ins_error := None |} cur) = false)).
Proof.
  split.
  - unfold send_disabled, handleSendMessage. rewrite orb_comm.
    by destruct (negb (truthy (trim (newMessage s))) || isLoading s).
  - intros s1 req k Hstart.
    destruct (handleSendMessage_started _ _ _ _ _ _ Hstart)
      as (-> & _ & Hcontent & _ & _).
    assert (truthy (trim (newMessage s)) = true) as Htrue.
    { unfold handleSendMessage in Hstart.
      destruct (truthy (trim (newMessage s))); [done |]. by cbn in Hstart. }
    split_and!; try done.
    + intros cur data err. unfold send_disabled, handleSendMessage_settled.
      cbn [ins_error ins_data isLoading newMessage
           setIsLoading setReplyingTo setNewMessage setMessages orb].
      by rewrite Hcontent, trim_idempotent, Htrue.
    + intros cur row Hempty. unfold send_disabled, textarea_disabled,
        handleSendMessage_settled.
      cbn [ins_error ins_data isLoading newMessage
           setIsLoading setReplyingTo setNewMessage setMessages orb].
      by rewrite Hempty.
Qed.

(** ** Theme display and the stored theme *)

Lemma themes_cases (x : jsstring) :
  x ∈ themes
  <-> x = js "dark" \/ x = js "light" \/ x = js "golden" \/ x = js "sonali".
Proof.
  unfold themes. rewrite !elem_of_cons, elem_of_nil. tauto.
Qed.

Lemma display_unknown (x : jsstring) :
  x ∉ themes -> getThemeName x = js "Dark Mode" /\ getThemeIcon x = Moon.
Proof.
  rewrite themes_cases. intros Hx. unfold getThemeName, getThemeIcon.
  repeat (destruct (decide _) as [-> | ?]; [tauto |]). done.
Qed.

(** X18. Name and icon of a theme. Each of the four themes has a name and
    an icon of its own, so every toggle from one of them changes both; a
    theme value outside the four (the mount effect adopts any stored string)
    is shown as dark, with name "Dark Mode" and the moon, and the first
    toggle, which leads to "dark", changes neither. Name and icon agree on
    what is dark, and the send button shows the heart exactly under the
    sonali icon. *)
Theorem theme_display (x : jsstring) :
  (x ∈ themes ->
   getThemeName (nextTheme x) <> getThemeName x
   /\ getThemeIcon (nextTheme x) <> getThemeIcon x)
  /\ (x ∉ themes ->
      getThemeName x = js "Dark Mode" /\ getThemeIcon x = Moon
      /\ getThemeName (nextTheme x) = getThemeName x
      /\ getThemeIcon (nextTheme x) = getThemeIcon x)
  /\ (getThemeName x = js "Dark Mode" <-> getThemeIcon x = Moon)
  /\ (forall y, x ∈ themes -> y ∈ themes ->
        getThemeName x = getThemeName y \/ getThemeIcon x = getThemeIcon y ->
        x = y)
  /\ (forall s, theme s = x ->
        (send_icon s = Heart <-> getThemeIcon x = SonaliKnot)).
Proof.
  split_and!; [| | | | intros s <-; unfold send_icon, getThemeIcon;
                      destruct (decide (theme s = js "sonali")) as [-> | ?];
                      [done |];
                      destruct (decide (theme s = js "light"));
                      destruct (decide (theme s = js "golden")); done].
  - rewrite themes_cases.
    intros [-> | [-> | [-> | ->]]]; split; by vm_compute.
  - intros Hx. destruct (display_unknown x Hx) as [Hn Hi].
    rewrite Hn, Hi, (nextTheme_unknown x Hx). split_and!; done.
  - destruct (decide (x ∈ themes)) as [Hin | Hout].
    + apply themes_cases in Hin as [-> | [-> | [-> | ->]]];
        split; intros H; by vm_compute in H.
    + by destruct (display_unknown x Hout) as [-> ->].
  - intros y Hx Hy.
    apply themes_cases in Hx as [-> | [-> | [-> | ->]]];
      apply themes_cases in Hy as [-> | [-> | [-> | ->]]];
      intros [H | H]; try done; by vm_compute in H.
Qed.

(** The states a page goes through: a load, then any number of toggles. *)
Lemma toggles_in_sync (n : nat) (p : State * Browser) :
  data_theme (snd p) = Some (theme (fst p)) ->
  data_theme (snd (Nat.iter n toggleTheme p))
  = Some (theme (fst (Nat.iter n toggleTheme p))).
Proof.
  intros Hp. destruct n as [| n]; [done |].
  rewrite Nat.iter_succ. by destruct (Nat.iter n toggleTheme p) as [s b].
Qed.

(** X19. Theme state, document and storage. After a load and any number of
    toggles the [data-theme] attribute of the document is the theme state.
    A load writes nothing to the storage and adopts any non-empty stored
    string, one of the four themes or not; from the first toggle on the
    theme is one of the four and the storage holds it. *)
Theorem theme_in_sync (storage : gmap jsstring jsstring) (n : nat) :
  data_theme (snd (Nat.iter n toggleTheme (load storage)))
  = Some (theme (fst (Nat.iter n toggleTheme (load storage))))
  /\ localStorage (snd (load storage)) = storage
  /\ (forall x, storage !! js "theme" = Some x -> x <> [] ->
                theme (fst (load storage)) = x)
  /\ (storage !! js "theme" = None \/ storage !! js "theme" = Some [] ->
      theme (fst (load storage)) = js "dark")
  /\ ((0 < n)%nat ->
      theme (fst (Nat.iter n toggleTheme (load storage))) ∈ themes
      /\ localStorage (snd (Nat.iter n toggleTheme (load storage))) !! js "theme"
         = Some (theme (fst (Nat.iter n toggleTheme (load storage))))).
Proof.
  assert (data_theme (snd (load storage)) = Some (theme (fst (load storage)))
          /\ localStorage (snd (load storage)) = storage) as [Hload Hkept].
  { unfold load, mount_theme. cbn [localStorage].
    destruct (storage !! js "theme") as [x |]; [| done].
    by destruct (truthy x). }
  split_and!.
  - by apply toggles_in_sync.
  - done.
  - intros x Hx Hne. apply load_saved_theme; [done | by destruct x].
  - unfold load, mount_theme. cbn [localStorage].
    intros [-> | ->]; done.
  - intros Hn. destruct n as [| n]; [lia |]. rewrite Nat.iter_succ.
    destruct (Nat.iter n toggleTheme (load storage)) as [s b].
    unfold toggleTheme. cbn [fst snd theme setTheme localStorage].
    split; [apply nextTheme_in_themes | by rewrite lookup_insert_eq].
Qed.

(** A stale stored value: the page comes up with a theme that is none of
    the four, shown as dark; one toggle makes it "dark" proper. *)
Example stale_theme_sample :
  let p := load {[ js "theme" := js "blue" ]} in
  theme (fst p) = js "blue"
  /\ data_theme (snd p) = Some (js "blue")
  /\ getThemeName (theme (fst p)) = js "Dark Mode"
  /\ theme (fst (toggleTheme p)) = js "dark"
  /\ getThemeName (theme (fst (toggleTheme p))) = js "Dark Mode".
Proof. by vm_compute. Qed.

(** ** The two orders of completing a send *)

(** X21. Response first. When the insert response is handled before the
    realtime echo of the row, the list ends with the confirmed row in place
    of the optimistic entry and nothing else changed; ids that were distinct
    stay distinct, and a repeated echo changes nothing. *)
Theorem response_before_echo (clock_id clock_created : Z)
    (s s1 : State) (req : InsertRequest) (k : SendPending) (row : Message) :
  handleSendMessage clock_id clock_created s = (s1, Some (req, k)) ->
  id (optimisticMessage k) ∉ id <$> messages s ->
  let final := s1 |> handleSendMessage_settled k
                       {| ins_data := Some row; ins_error := None |}
                  |> on_INSERT row in
  messages final = row :: messages s
  /\ (NoDup (id <$> messages s) -> id row ∉ id <$> messages s ->
      NoDup (id <$> messages final))
  /\ on_INSERT row final = final.
Proof.
  intros Hstart Hfresh final.
  pose proof (send_response_then_echo _ _ _ _ _ _ row Hstart Hfresh) as Hlist.
  fold final in Hlist. split_and!.
  - done.
  - intros Hnd Hnew. rewrite Hlist, fmap_cons. by apply NoDup_cons.
  - unfold on_INSERT at 1. rewrite <- (setMessages_ext (fun l => l)).
    + by destruct final.
    + symmetry. apply insert_update_present.
      rewrite Hlist, fmap_cons. apply list_elem_of_here.
Qed.

Lemma response_before_echo_witness :
  let row := {| id := js "u1"; content := js "hi"; created_at := 1001;
                reply_to := None |} in
  exists s1 req k,
    handleSendMessage 1000 1000 sample_first = (s1, Some (req, k))
    /\ messages (s1 |> handleSendMessage_settled k
                         {| ins_data := Some row; ins_error := None |}
                    |> on_INSERT row)
       = [row].
Proof.
  intros row. do 3 eexists. split; [by vm_compute |].
  refine (proj1 (response_before_echo 1000 1000 sample_first _ _ _ row
                   eq_refl _)).
  apply not_elem_of_nil.
Defined.

(** X22. Echo first. When the realtime echo of the row is handled before
    the insert response, the list ends with the row twice, so its ids are
    no longer distinct. Both copies go together: the DELETE notification
    for the row leaves the list of before the send. *)
Theorem echo_before_response (clock_id clock_created : Z)
    (s s1 : State) (req : InsertRequest) (k : SendPending) (row : Message) :
  handleSendMessage clock_id clock_created s = (s1, Some (req, k)) ->
  id (optimisticMessage k) ∉ id <$> messages s ->
  id row ∉ id <$> messages s ->
  id row <> id (optimisticMessage k) ->
  let final := s1 |> on_INSERT row
                  |> handleSendMessage_settled k
                       {| ins_data := Some row; ins_error := None |} in
  messages final = row :: row :: messages s
  /\ ~ NoDup (id <$> messages final)
  /\ messages (on_DELETE (id row) final) = messages s.
Proof.
  intros Hstart Hfresh Hnew Hne final.
  pose proof (send_echo_then_response _ _ _ _ _ _ row Hstart Hfresh Hnew Hne)
    as Hlist.
  fold final in Hlist. split_and!.
  - done.
  - rewrite Hlist, !fmap_cons. intros Hnd. apply NoDup_cons in Hnd as [Hin _].
    destruct Hin. apply list_elem_of_here.
  - unfold on_DELETE, delete_update. rewrite messages_setMessages, Hlist.
    rewrite !filter_drop_head. by apply filter_id_ne_fresh.
Qed.

Lemma echo_before_response_witness :
  let row := {| id := js "u1"; content := js "hi"; created_at := 1001;
                reply_to := None |} in
  exists s1 req k,
    handleSendMessage 1000 1000 sample_first = (s1, Some (req, k))
    /\ messages (s1 |> on_INSERT row
                    |> handleSendMessage_settled k
                         {| ins_data := Some row; ins_error := None |})
       = [row; row].
Proof.
  intros row. do 3 eexists. split; [by vm_compute |].
  refine (proj1 (echo_before_response 1000 1000 sample_first _ _ _ row
                   eq_refl _ _ _)).
  - apply not_elem_of_nil.
  - apply not_elem_of_nil.
  - by vm_compute.
Defined.
